(** * PassGen: the password generator of [src/passgen.ts]

    A shallow embedding of the TypeScript program (the compiled
    [dist/passgen.js] is the same program) and of the points where the
    older script [bin/passgen.js] differs from it (module [Legacy]).

    - A JavaScript string is a [string]; its characters are the code units,
      which are all below 256 for the texts this program handles.
    - A JavaScript [number] that holds a length is [NaN] or an integer.
    - [crypto.randomBytes] reads an entropy stream through a cursor, so the
      number of bytes a run has consumed is the distance the cursor moved.
    - [process.exit], [throw] and normal return are the three ways a call
      completes. *)

From Stdlib Require Import String Ascii List ZArith Lia Bool Arith.
From Stdlib Require Import Strings.Byte.
Import ListNotations.

Local Open Scope string_scope.

(** ** JavaScript strings *)

Module JsString.

(** [s.includes(c)] for a one-character [c]. *)
Fixpoint mem (c : ascii) (s : string) : bool :=
  match s with
  | EmptyString => false
  | String x s' => Ascii.eqb x c || mem c s'
  end.

Fixpoint filter (p : ascii -> bool) (s : string) : string :=
  match s with
  | EmptyString => EmptyString
  | String x s' => if p x then String x (filter p s') else filter p s'
  end.

(** The characters that are not matched literally inside a pattern
    ([SyntaxCharacter] of the language grammar). *)
Definition syntaxCharacters : string := "^$\.*+?()[]{}|".

(** [s.replace(new RegExp(c, 'g'), '')] where the pattern source [c] is one
    character that stands for itself: with the [g] flag every match is
    replaced, here by the empty string. *)
Fixpoint replaceAll (c : ascii) (s : string) : string :=
  match s with
  | EmptyString => EmptyString
  | String x s' =>
      if Ascii.eqb x c then replaceAll c s' else String x (replaceAll c s')
  end.

(** [s[i]] followed by the conversion that [+=] applies to it: a position
    outside the string reads [undefined]. *)
Definition at_ (s : string) (i : nat) : string :=
  match String.get i s with
  | Some c => String c EmptyString
  | None => "undefined"
  end.

(** [for (const char of s)]: the characters in order. *)
Definition chars (s : string) : list ascii := list_ascii_of_string s.

Definition In (c : ascii) (s : string) : Prop := List.In c (chars s).

End JsString.

(** ** Character sets *)

Module CHAR_SETS.
Definition lowercase : string := "abcdefghijklmnopqrstuvwxyz".
Definition uppercase : string := "ABCDEFGHIJKLMNOPQRSTUVWXYZ".
Definition numbers : string := "0123456789".
Definition symbols : string := "!@#$%^&*()_+-=[]{}|;:,.<>?".
Definition ambiguous : string := "il1Lo0O".
End CHAR_SETS.

(** ** Numbers *)

(** The values a length takes in this program: what [parseInt] returns.
    [parseInt] yields an integer or [NaN]; the integer is kept exact here.
    (A [number] rounds integers beyond 2^53, monotonically, and every value
    the program keeps lies in [1, 256], so no comparison changes.) *)
Inductive number :=
| NaN
| Num (z : Z).

(** ** Options *)

(** A property that may be [undefined]. *)
Definition orDefault {A} (d : A) (v : option A) : A :=
  match v with
  | Some a => a
  | None => d
  end.

(** The object handed to [generatePassword].  The interface declares the
    flags as booleans; at run time a flag the command line did not set is
    [undefined] ([None]). *)
Record PasswordOptions := {
  length : number;
  opt_includeLowercase : option bool;
  opt_includeUppercase : option bool;
  opt_includeNumbers : option bool;
  opt_includeSymbols : option bool;
  opt_excludeAmbiguous : option bool
}.

(** The destructuring at the head of [generatePassword], with its defaults. *)
Definition includeLowercase (o : PasswordOptions) : bool :=
  orDefault true (opt_includeLowercase o).
Definition includeUppercase (o : PasswordOptions) : bool :=
  orDefault true (opt_includeUppercase o).
Definition includeNumbers (o : PasswordOptions) : bool :=
  orDefault true (opt_includeNumbers o).
Definition includeSymbols (o : PasswordOptions) : bool :=
  orDefault false (opt_includeSymbols o).
Definition excludeAmbiguous (o : PasswordOptions) : bool :=
  orDefault false (opt_excludeAmbiguous o).

(** ** The character set of a call (the first half of [generatePassword]) *)

Definition stripAmbiguous (charset : string) : string :=
  fold_left (fun charset char => JsString.replaceAll char charset)
            (JsString.chars CHAR_SETS.ambiguous) charset.

Definition composeCharset (o : PasswordOptions) : string :=
  let charset := "" in
  let charset :=
    if includeLowercase o then charset ++ CHAR_SETS.lowercase else charset in
  let charset :=
    if includeUppercase o then charset ++ CHAR_SETS.uppercase else charset in
  let charset :=
    if includeNumbers o then charset ++ CHAR_SETS.numbers else charset in
  let charset :=
    if includeSymbols o then charset ++ CHAR_SETS.symbols else charset in
  if excludeAmbiguous o then stripAmbiguous charset else charset.

(** The composed alphabet in the words of the specification: the four sets
    in a fixed order, each present iff its flag is set, and with every
    occurrence of an ambiguous character filtered out on request. *)
Module Spec.
Definition part (flag : bool) (set : string) : string :=
  if flag then set else "".

Definition concatenation (o : PasswordOptions) : string :=
  part (includeLowercase o) CHAR_SETS.lowercase
  ++ part (includeUppercase o) CHAR_SETS.uppercase
  ++ part (includeNumbers o) CHAR_SETS.numbers
  ++ part (includeSymbols o) CHAR_SETS.symbols.

Definition isAmbiguous (c : ascii) : bool :=
  JsString.mem c CHAR_SETS.ambiguous.

Definition alphabet (o : PasswordOptions) : string :=
  if excludeAmbiguous o
  then JsString.filter (fun c => negb (isAmbiguous c)) (concatenation o)
  else concatenation o.
End Spec.

(** ** Completions *)

Inductive exn :=
| Error (message : string)
| RangeError (size : number).

(** How a call ends: [return], [throw], or [process.exit(code)]. *)
Inductive completion (A : Type) :=
| Return (a : A)
| Throw (e : exn)
| Exit (code : Z).

Arguments Return {A} a.
Arguments Throw {A} e.
Arguments Exit {A} code.

(** ** The secure random source *)

(** The operating system's entropy as an unbounded stream of bytes, and how
    many of them have been handed out. *)
Record RNG := {
  entropy : nat -> byte;
  drawn : nat
}.

Definition kMaxLength : Z := 2147483647.

(** [randomBytes(size)]: a buffer of the next [size] bytes of the stream.
    A size that is [NaN], negative or above 2^31-1 is refused with a
    [RangeError] before anything is read. *)
Definition randomBytes (size : number) (g : RNG)
  : completion (list byte) * RNG :=
  match size with
  | NaN => (Throw (RangeError size), g)
  | Num n =>
      if ((n <? 0) || (kMaxLength <? n))%Z
      then (Throw (RangeError size), g)
      else (Return (map (entropy g) (seq (drawn g) (Z.to_nat n))),
            {| entropy := entropy g; drawn := drawn g + Z.to_nat n |})
  end.

(** ** generatePassword *)

(** [charset[array[i] % charset.length]] as [+=] appends it. *)
Definition pick (charset : string) (array : list byte) (i : nat) : string :=
  match nth_error array i with
  | Some b => JsString.at_ charset (Byte.to_nat b mod String.length charset)
  | None => "undefined"
  end.

(** [for (let i = 0; i < length; i++) password += ...], entered at index [i]
    with [todo] iterations left. *)
Fixpoint fill (charset : string) (array : list byte) (todo i : nat)
  (password : string) : string :=
  match todo with
  | O => password
  | S todo' =>
      fill charset array todo' (S i) (password ++ pick charset array i)
  end.

(** The number of times the loop test [i < length] holds, from [i = 0]. *)
Definition iterations (length : number) : nat :=
  match length with
  | NaN => 0
  | Num n => Z.to_nat n
  end.

Definition noCharacterSets : string :=
  "No character sets selected for password generation".

Definition generatePassword (options : PasswordOptions) (g : RNG)
  : completion string * RNG :=
  let charset := composeCharset options in
  if (String.length charset =? 0)%nat
  then (Throw (Error noCharacterSets), g)
  else
    match randomBytes (length options) g with
    | (Return array, g') =>
        (Return (fill charset array (iterations (length options)) 0 ""), g')
    | (Throw e, g') => (Throw e, g')
    | (Exit code, g') => (Exit code, g')
    end.

(** ** parseInt *)

(** White space and line terminators among the code units below 256:
    TAB, LF, VT, FF, CR, SP and NBSP. *)
Definition isWhiteSpace (c : ascii) : bool :=
  existsb (Nat.eqb (nat_of_ascii c)) [9; 10; 11; 12; 13; 32; 160].

Fixpoint trimStart (s : string) : string :=
  match s with
  | String c s' => if isWhiteSpace c then trimStart s' else s
  | EmptyString => EmptyString
  end.

(** The value of a digit: [0-9], then [a-z] and [A-Z] from ten up. *)
Definition digitValue (c : ascii) : option Z :=
  let n := Z.of_nat (nat_of_ascii c) in
  if ((48 <=? n) && (n <=? 57))%Z then Some (n - 48)%Z
  else if ((97 <=? n) && (n <=? 122))%Z then Some (n - 87)%Z
  else if ((65 <=? n) && (n <=? 90))%Z then Some (n - 55)%Z
  else None.

Definition radixDigit (R : Z) (c : ascii) : option Z :=
  match digitValue c with
  | Some d => if (d <? R)%Z then Some d else None
  | None => None
  end.

(** The digits of the longest prefix made of radix-[R] digits. *)
Fixpoint digitsPrefix (R : Z) (s : string) : list Z :=
  match s with
  | String c s' =>
      match radixDigit R c with
      | Some d => d :: digitsPrefix R s'
      | None => []
      end
  | EmptyString => []
  end.

Definition mathInt (R : Z) (digits : list Z) : Z :=
  fold_left (fun acc d => acc * R + d)%Z digits 0%Z.

(** [parseInt(string)] without a radix: skip leading white space, take a
    sign, take a [0x] or [0X] prefix as radix 16 and otherwise radix 10, read
    digits as far as they go and ignore the rest; no digit gives [NaN]. *)
Definition parseInt (input : string) : number :=
  let str := trimStart input in
  let '(sign, str) :=
    match str with
    | String c rest =>
        if Ascii.eqb c "-" then ((-1)%Z, rest)
        else if Ascii.eqb c "+" then (1%Z, rest)
        else (1%Z, str)
    | EmptyString => (1%Z, str)
    end in
  let hex := String.prefix "0x" str || String.prefix "0X" str in
  let R := if hex then 16%Z else 10%Z in
  let str := if hex then String.substring 2 (String.length str - 2) str
             else str in
  match digitsPrefix R str with
  | [] => NaN
  | digits => Num (sign * mathInt R digits)
  end.

Definition isNaN (x : number) : bool :=
  match x with
  | NaN => true
  | Num _ => false
  end.

(** [x < k] and [x > k]: both false on [NaN]. *)
Definition lt (x : number) (k : Z) : bool :=
  match x with
  | NaN => false
  | Num z => (z <? k)%Z
  end.

Definition gt (x : number) (k : Z) : bool :=
  match x with
  | NaN => false
  | Num z => (k <? z)%Z
  end.

(** ** The process and its surroundings *)

(** What the program prints; the constructor stands for the message text.
    - [GeneratedPassword text]: ['Generated password:', text]
    - [CopiedToClipboard]: ['Password copied to clipboard!']
    - [FailedToCopy e]: ['Failed to copy to clipboard:', e.message]
    - [LengthNotPositive]: ['Length must be a positive number']
    - [LengthTooLarge]: ['Length cannot exceed 256 characters']
    - [ErrorGenerating e]: ['Error generating password:', e.message] *)
Inductive line :=
| GeneratedPassword (text : string)
| CopiedToClipboard
| FailedToCopy (error : exn)
| LengthNotPositive
| LengthTooLarge
| ErrorGenerating (error : exn).

Inductive event :=
| Log (l : line)                     (* console.log *)
| LogError (l : line)                (* console.error *)
| Clipboard (text : string).         (* a write the clipboard accepted *)

(** The surroundings of a run: the random source, the system clipboard
    ([clipboardRejects text] is the message of the error with which
    [clipboardy.write(text)] rejects, if it does) and what has happened so
    far, oldest first. *)
Record World := {
  rng : RNG;
  clipboardRejects : string -> option string;
  trace : list event
}.

Definition M (A : Type) : Type := World -> completion A * World.

Definition ret {A} (a : A) : M A := fun w => (Return a, w).

Definition bind {A B} (m : M A) (k : A -> M B) : M B :=
  fun w =>
    match m w with
    | (Return a, w') => k a w'
    | (Throw e, w') => (Throw e, w')
    | (Exit code, w') => (Exit code, w')
    end.

(** [try { body } catch (error) { handler }]; [process.exit] is not caught. *)
Definition tryCatch {A} (body : M A) (handler : exn -> M A) : M A :=
  fun w =>
    match body w with
    | (Throw e, w') => handler e w'
    | r => r
    end.

Declare Scope js_scope.
Delimit Scope js_scope with js.
Notation "x <- m ;; k" := (bind m (fun x => k))
  (at level 61, m at next level, right associativity) : js_scope.
Notation "m ;; k" := (bind m (fun _ => k))
  (at level 61, right associativity) : js_scope.

(** The world after one more event, and after the source moved on. *)
Definition record (e : event) (w : World) : World :=
  {| rng := rng w;
     clipboardRejects := clipboardRejects w;
     trace := trace w ++ [e] |}.

Definition setRng (g : RNG) (w : World) : World :=
  {| rng := g; clipboardRejects := clipboardRejects w; trace := trace w |}.

Definition emit (e : event) : M unit :=
  fun w => (Return tt, record e w).

Definition console_log (l : line) : M unit := emit (Log l).
Definition console_error (l : line) : M unit := emit (LogError l).

Definition process_exit {A} (code : Z) : M A := fun w => (Exit code, w).

Definition clipboardy_write (text : string) : M unit :=
  fun w =>
    match clipboardRejects w text with
    | Some message => (Throw (Error message), w)
    | None => emit (Clipboard text) w
    end.

(** A call that uses the random source and nothing else. *)
Definition withRng {A} (f : RNG -> completion A * RNG) : M A :=
  fun w =>
    let '(r, g) := f (rng w) in
    (r, setRng g w).

Local Open Scope js_scope.

(** ** parseLength *)

Definition parseLength (lengthStr : string) : M number :=
  let length := parseInt lengthStr in
  if isNaN length || lt length 1 then
    console_error LengthNotPositive ;; process_exit 1
  else if gt length 256 then
    console_error LengthTooLarge ;; process_exit 1
  else ret length.

(** The length validator in the words of the specification: the input must
    be an integer, written as an optional sign and decimal digits; it is
    refused as invalid when it is not one or is below 1, and as too large
    when it exceeds 256. *)
Module SpecLength.

Inductive LengthError :=
| InvalidLengthError
| LengthTooLargeError.

Definition isDecimalDigit (c : ascii) : bool :=
  (48 <=? nat_of_ascii c)%nat && (nat_of_ascii c <=? 57)%nat.

Fixpoint decimal (s : string) (acc : Z) : option Z :=
  match s with
  | EmptyString => Some acc
  | String c s' =>
      if isDecimalDigit c
      then decimal s' (acc * 10 + (Z.of_nat (nat_of_ascii c) - 48))%Z
      else None
  end.

Definition unsigned (s : string) : option Z :=
  match s with
  | EmptyString => None
  | _ => decimal s 0%Z
  end.

Definition integerValue (s : string) : option Z :=
  match s with
  | String c rest =>
      if Ascii.eqb c "-" then option_map Z.opp (unsigned rest)
      else if Ascii.eqb c "+" then unsigned rest
      else unsigned s
  | EmptyString => None
  end.

(** What may follow an integer without being read as part of it: the end
    of the text, or a character that is neither a digit nor the [x] of a
    hexadecimal prefix. *)
Definition endsNumber (rest : string) : bool :=
  match rest with
  | EmptyString => true
  | String c _ =>
      negb (isDecimalDigit c || Ascii.eqb c "x" || Ascii.eqb c "X")
  end.

Definition validateLength (raw : string) : LengthError + Z :=
  match integerValue raw with
  | None => inl InvalidLengthError
  | Some z =>
      if (z <? 1)%Z then inl InvalidLengthError
      else if (256 <? z)%Z then inl LengthTooLargeError
      else inr z
  end.

(** How the program reports each outcome: the message it prints before
    it exits with status 1, or the value it returns. *)
Definition reported (r : LengthError + Z) (w : World)
  : completion number * World :=
  match r with
  | inl InvalidLengthError => (Exit 1%Z, record (LogError LengthNotPositive) w)
  | inl LengthTooLargeError => (Exit 1%Z, record (LogError LengthTooLarge) w)
  | inr z => (Return (Num z), w)
  end.

End SpecLength.

(** ** copyToClipboard *)

Definition copyToClipboard (text : string) : M unit :=
  tryCatch
    (clipboardy_write text ;;
     console_log (GeneratedPassword text) ;;
     console_log CopiedToClipboard)
    (fun error =>
       console_error (FailedToCopy error) ;;
       console_log (GeneratedPassword text)).

(** ** handlePasswordGeneration *)

(** The options object of a command, as the argument parser delivers it or
    as a preset writes it. *)
Record CommandOptions := {
  cmd_length : string;
  cmd_lowercase : option bool;
  cmd_uppercase : option bool;
  cmd_numbers : option bool;
  cmd_symbols : option bool;
  cmd_excludeAmbiguous : option bool;
  cmd_copy : bool
}.

(** [Partial<PasswordOptions>]: [None] is a key the object does not have. *)
Record PartialPasswordOptions := {
  p_length : option number;
  p_includeLowercase : option bool;
  p_includeUppercase : option bool;
  p_includeNumbers : option bool;
  p_includeSymbols : option bool;
  p_excludeAmbiguous : option bool
}.

(** [{}] *)
Definition noOverrides : PartialPasswordOptions :=
  {| p_length := None;
     p_includeLowercase := None;
     p_includeUppercase := None;
     p_includeNumbers := None;
     p_includeSymbols := None;
     p_excludeAmbiguous := None |}.

(** A key written before [...spread] keeps its value unless the spread
    object has the key. *)
Definition spread {A} (written : A) (spreadKey : option A) : A :=
  orDefault written spreadKey.

(** The object literal passed to [generatePassword]. *)
Definition passwordOptionsOf (length : number) (options : CommandOptions)
  (passwordOptions : PartialPasswordOptions) : PasswordOptions :=
  {| length := spread length (p_length passwordOptions);
     opt_includeLowercase :=
       spread (cmd_lowercase options)
              (option_map Some (p_includeLowercase passwordOptions));
     opt_includeUppercase :=
       spread (cmd_uppercase options)
              (option_map Some (p_includeUppercase passwordOptions));
     opt_includeNumbers :=
       spread (cmd_numbers options)
              (option_map Some (p_includeNumbers passwordOptions));
     opt_includeSymbols :=
       spread (cmd_symbols options)
              (option_map Some (p_includeSymbols passwordOptions));
     opt_excludeAmbiguous :=
       spread (cmd_excludeAmbiguous options)
              (option_map Some (p_excludeAmbiguous passwordOptions)) |}.

Definition handlePasswordGeneration (options : CommandOptions)
  (passwordOptions : PartialPasswordOptions) : M unit :=
  tryCatch
    (length <- parseLength (cmd_length options) ;;
     password <- withRng (generatePassword
                            (passwordOptionsOf length options passwordOptions)) ;;
     if cmd_copy options
     then copyToClipboard password
     else console_log (GeneratedPassword password))
    (fun error =>
       console_error (ErrorGenerating error) ;; process_exit 1).

(** ** The command line *)

(** The switches of the default command, as the argument parser recognises
    them ([-l, --length <number>], [--no-lowercase], [--no-uppercase],
    [--no-numbers], [--no-symbols], [-x, --exclude-ambiguous], [--no-copy]).
    The parser is the library's: a [--no-x] switch declares the option [x]
    with default [true] and sets it to [false]; a plain switch is
    [undefined] until given and then [true]; a valued option carries its
    declared default. *)
Inductive Switch :=
| Length (value : string)
| NoLowercase
| NoUppercase
| NoNumbers
| NoSymbols
| ExcludeAmbiguous
| NoCopy.

Definition defaultOptions : CommandOptions :=
  {| cmd_length := "16";
     cmd_lowercase := Some true;
     cmd_uppercase := Some true;
     cmd_numbers := Some true;
     cmd_symbols := Some true;
     cmd_excludeAmbiguous := None;
     cmd_copy := true |}.

(** Assignments to one property of the options object. *)
Definition setLength (value : string) (o : CommandOptions) : CommandOptions :=
  {| cmd_length := value; cmd_lowercase := cmd_lowercase o;
     cmd_uppercase := cmd_uppercase o; cmd_numbers := cmd_numbers o;
     cmd_symbols := cmd_symbols o;
     cmd_excludeAmbiguous := cmd_excludeAmbiguous o;
     cmd_copy := cmd_copy o |}.

Definition setLowercase (value : bool) (o : CommandOptions) : CommandOptions :=
  {| cmd_length := cmd_length o; cmd_lowercase := Some value;
     cmd_uppercase := cmd_uppercase o; cmd_numbers := cmd_numbers o;
     cmd_symbols := cmd_symbols o;
     cmd_excludeAmbiguous := cmd_excludeAmbiguous o;
     cmd_copy := cmd_copy o |}.

Definition setUppercase (value : bool) (o : CommandOptions) : CommandOptions :=
  {| cmd_length := cmd_length o; cmd_lowercase := cmd_lowercase o;
     cmd_uppercase := Some value; cmd_numbers := cmd_numbers o;
     cmd_symbols := cmd_symbols o;
     cmd_excludeAmbiguous := cmd_excludeAmbiguous o;
     cmd_copy := cmd_copy o |}.

Definition setNumbers (value : bool) (o : CommandOptions) : CommandOptions :=
  {| cmd_length := cmd_length o; cmd_lowercase := cmd_lowercase o;
     cmd_uppercase := cmd_uppercase o; cmd_numbers := Some value;
     cmd_symbols := cmd_symbols o;
     cmd_excludeAmbiguous := cmd_excludeAmbiguous o;
     cmd_copy := cmd_copy o |}.

Definition setSymbols (value : bool) (o : CommandOptions) : CommandOptions :=
  {| cmd_length := cmd_length o; cmd_lowercase := cmd_lowercase o;
     cmd_uppercase := cmd_uppercase o; cmd_numbers := cmd_numbers o;
     cmd_symbols := Some value;
     cmd_excludeAmbiguous := cmd_excludeAmbiguous o;
     cmd_copy := cmd_copy o |}.

Definition setExcludeAmbiguous (value : bool) (o : CommandOptions)
  : CommandOptions :=
  {| cmd_length := cmd_length o; cmd_lowercase := cmd_lowercase o;
     cmd_uppercase := cmd_uppercase o; cmd_numbers := cmd_numbers o;
     cmd_symbols := cmd_symbols o;
     cmd_excludeAmbiguous := Some value;
     cmd_copy := cmd_copy o |}.

Definition setCopy (value : bool) (o : CommandOptions) : CommandOptions :=
  {| cmd_length := cmd_length o; cmd_lowercase := cmd_lowercase o;
     cmd_uppercase := cmd_uppercase o; cmd_numbers := cmd_numbers o;
     cmd_symbols := cmd_symbols o;
     cmd_excludeAmbiguous := cmd_excludeAmbiguous o;
     cmd_copy := value |}.

Definition setSwitch (o : CommandOptions) (s : Switch) : CommandOptions :=
  match s with
  | Length value => setLength value o
  | NoLowercase => setLowercase false o
  | NoUppercase => setUppercase false o
  | NoNumbers => setNumbers false o
  | NoSymbols => setSymbols false o
  | ExcludeAmbiguous => setExcludeAmbiguous true o
  | NoCopy => setCopy false o
  end.

Definition parseOptions (argv : list Switch) : CommandOptions :=
  fold_left setSwitch argv defaultOptions.

(** The options object of a preset command.  The preset declares
    [-l, --length <number>] with a default of its own, and
    [--no-clipboard]. *)
Record PresetOptions := {
  preset_length : string;
  preset_clipboard : bool
}.

Inductive PresetSwitch :=
| PresetLength (value : string)
| NoClipboard.

(** What a switch on the command line of a preset does to the preset's
    options.  The root command declares [-l, --length] as well, and the
    parser looks for the root command's options before and after a
    subcommand: a [-l] given with a preset is taken by the root command, whose
    action does not run, and the preset's [length] keeps its declared
    default.  [--no-clipboard] is the preset's alone. *)
Definition setPresetSwitch (o : PresetOptions) (s : PresetSwitch)
  : PresetOptions :=
  match s with
  | PresetLength value => o
  | NoClipboard =>
      {| preset_length := preset_length o; preset_clipboard := false |}
  end.

Definition parsePresetOptions (defaultLength : string)
  (argv : list PresetSwitch) : PresetOptions :=
  fold_left setPresetSwitch argv
            {| preset_length := defaultLength; preset_clipboard := true |}.

(** The two objects a preset's action builds from its five flags. *)
Definition presetCommandOptions (options : PresetOptions)
  (lowercase uppercase numbers symbols excludeAmbiguous : bool)
  : CommandOptions :=
  {| cmd_length := preset_length options;
     cmd_copy := preset_clipboard options;
     cmd_lowercase := Some lowercase;
     cmd_uppercase := Some uppercase;
     cmd_numbers := Some numbers;
     cmd_symbols := Some symbols;
     cmd_excludeAmbiguous := Some excludeAmbiguous |}.

Definition presetPasswordOptions
  (lowercase uppercase numbers symbols excludeAmbiguous : bool)
  : PartialPasswordOptions :=
  {| p_length := None;
     p_includeLowercase := Some lowercase;
     p_includeUppercase := Some uppercase;
     p_includeNumbers := Some numbers;
     p_includeSymbols := Some symbols;
     p_excludeAmbiguous := Some excludeAmbiguous |}.

Module simple.
Definition defaultLength : string := "12".
Definition commandOptions (options : PresetOptions) : CommandOptions :=
  presetCommandOptions options true true true true true.
Definition passwordOptions : PartialPasswordOptions :=
  presetPasswordOptions true true true true true.
Definition action (options : PresetOptions) : M unit :=
  handlePasswordGeneration (commandOptions options) passwordOptions.
End simple.

Module strong.
Definition defaultLength : string := "20".
Definition commandOptions (options : PresetOptions) : CommandOptions :=
  presetCommandOptions options true true true true false.
Definition passwordOptions : PartialPasswordOptions :=
  presetPasswordOptions true true true true false.
Definition action (options : PresetOptions) : M unit :=
  handlePasswordGeneration (commandOptions options) passwordOptions.
End strong.

Module pin.
Definition defaultLength : string := "6".
Definition commandOptions (options : PresetOptions) : CommandOptions :=
  presetCommandOptions options false false true false false.
Definition passwordOptions : PartialPasswordOptions :=
  presetPasswordOptions false false true false false.
Definition action (options : PresetOptions) : M unit :=
  handlePasswordGeneration (commandOptions options) passwordOptions.
End pin.

(** [program.parse()]: the command named on the command line, or the default
    command, runs with its parsed options. *)
Inductive Invocation :=
| Default (argv : list Switch)
| Simple (argv : list PresetSwitch)
| Strong (argv : list PresetSwitch)
| Pin (argv : list PresetSwitch).

Definition program (inv : Invocation) : M unit :=
  match inv with
  | Default argv => handlePasswordGeneration (parseOptions argv) noOverrides
  | Simple argv =>
      simple.action (parsePresetOptions simple.defaultLength argv)
  | Strong argv =>
      strong.action (parsePresetOptions strong.defaultLength argv)
  | Pin argv => pin.action (parsePresetOptions pin.defaultLength argv)
  end.

(** The configuration [generatePassword] receives in a run of [program],
    when the length is accepted: the arguments of the call inside
    [handlePasswordGeneration]. *)
Definition commandOf (inv : Invocation)
  : CommandOptions * PartialPasswordOptions :=
  match inv with
  | Default argv => (parseOptions argv, noOverrides)
  | Simple argv =>
      (simple.commandOptions (parsePresetOptions simple.defaultLength argv),
       simple.passwordOptions)
  | Strong argv =>
      (strong.commandOptions (parsePresetOptions strong.defaultLength argv),
       strong.passwordOptions)
  | Pin argv =>
      (pin.commandOptions (parsePresetOptions pin.defaultLength argv),
       pin.passwordOptions)
  end.

(** ** The older script [bin/passgen.js]

    Its [generatePassword] has the same body (it draws the bytes with
    [crypto.getRandomValues] on a [Uint8Array]); what differs is the command
    line: symbols are switched on by [-s, --symbols], the presets take no
    [--no-clipboard] and always copy, [simple] leaves symbols out, and a
    successful copy does not print the password. *)
Module Legacy.

Inductive Switch :=
| Length (value : string)
| NoLowercase
| NoUppercase
| NoNumbers
| Symbols
| ExcludeAmbiguous
| NoCopy.

Definition defaultOptions : CommandOptions :=
  {| cmd_length := "16";
     cmd_lowercase := Some true;
     cmd_uppercase := Some true;
     cmd_numbers := Some true;
     cmd_symbols := None;
     cmd_excludeAmbiguous := None;
     cmd_copy := true |}.

Definition setSwitch (o : CommandOptions) (s : Switch) : CommandOptions :=
  match s with
  | Length value => setLength value o
  | NoLowercase => setLowercase false o
  | NoUppercase => setUppercase false o
  | NoNumbers => setNumbers false o
  | Symbols => setSymbols true o
  | ExcludeAmbiguous => setExcludeAmbiguous true o
  | NoCopy => setCopy false o
  end.

Definition parseOptions (argv : list Switch) : CommandOptions :=
  fold_left setSwitch argv defaultOptions.

(** The object literal of the default command's action. *)
Definition passwordOptionsOf (length : number) (options : CommandOptions)
  : PasswordOptions :=
  {| length := length;
     opt_includeLowercase := cmd_lowercase options;
     opt_includeUppercase := cmd_uppercase options;
     opt_includeNumbers := cmd_numbers options;
     opt_includeSymbols := cmd_symbols options;
     opt_excludeAmbiguous := cmd_excludeAmbiguous options |}.

(** The object literals of the preset actions. *)
Definition preset (length : number)
  (lowercase uppercase numbers symbols excludeAmbiguous : bool)
  : PasswordOptions :=
  {| length := length;
     opt_includeLowercase := Some lowercase;
     opt_includeUppercase := Some uppercase;
     opt_includeNumbers := Some numbers;
     opt_includeSymbols := Some symbols;
     opt_excludeAmbiguous := Some excludeAmbiguous |}.

Definition simple (length : number) : PasswordOptions :=
  preset length true true true false true.
Definition strong (length : number) : PasswordOptions :=
  preset length true true true true false.
Definition pin (length : number) : PasswordOptions :=
  preset length false false true false false.

Definition copyToClipboard (text : string) : M unit :=
  tryCatch
    (clipboardy_write text ;;
     console_log CopiedToClipboard)
    (fun error =>
       console_error (FailedToCopy error) ;;
       console_log (GeneratedPassword text)).

End Legacy.

(** ** Sample surroundings, for instances of the theorems *)

Module Sample.
(** An entropy stream: byte [i] is [37 i mod 256]. *)
Definition bytes (i : nat) : byte :=
  match Byte.of_nat (i * 37 mod 256) with
  | Some b => b
  | None => x00
  end.

Definition source : RNG := {| entropy := bytes; drawn := 0 |}.

(** The same source after three bytes have been drawn, and a fresh source
    whose stream starts at that fourth byte. *)
Definition later : RNG := {| entropy := bytes; drawn := 3 |}.
Definition shifted : RNG :=
  {| entropy := fun i => bytes (i + 3); drawn := 0 |}.

Definition working : World :=
  {| rng := source; clipboardRejects := fun _ => None; trace := [] |}.

Definition headless : World :=
  {| rng := source;
     clipboardRejects := fun _ => Some "no clipboard available";
     trace := [] |}.

Definition lettersOnly : PasswordOptions :=
  {| length := Num 4;
     opt_includeLowercase := Some true;
     opt_includeUppercase := Some false;
     opt_includeNumbers := Some false;
     opt_includeSymbols := None;
     opt_excludeAmbiguous := Some true |}.

Definition nothing : PasswordOptions :=
  {| length := Num 8;
     opt_includeLowercase := Some false;
     opt_includeUppercase := Some false;
     opt_includeNumbers := Some false;
     opt_includeSymbols := Some false;
     opt_excludeAmbiguous := None |}.
End Sample.

(** ** Bytes and the characters they select *)

Definition byteOf (n : nat) : byte :=
  match Byte.of_nat n with
  | Some b => b
  | None => x00
  end.

(** The 256 values a random byte takes. *)
Definition allBytes : list byte := map byteOf (seq 0 256).

(** The byte values [b] for which [b % charset.length] is [k]. *)
Definition selecting (charset : string) (k : nat) : list byte :=
  List.filter
    (fun b => Nat.eqb (Byte.to_nat b mod String.length charset) k) allBytes.

(** [s.indexOf(c)], with the length of [s] where JavaScript has -1. *)
Fixpoint indexOf (c : ascii) (s : string) : nat :=
  match s with
  | EmptyString => 0
  | String x s' => if Ascii.eqb x c then 0 else S (indexOf c s')
  end.

(** A source whose first bytes are the positions, in [charset], of the
    characters of [text]. *)
Definition spelling (charset text : string) : RNG :=
  {| entropy := fun i =>
                  match String.get i text with
                  | Some c => byteOf (indexOf c charset)
                  | None => x00
                  end;
     drawn := 0 |}.

(** ** Reading a trace *)

(** The passwords printed by [console.log('Generated password:', ...)]. *)
Definition printed (events : list event) : list string :=
  flat_map (fun e => match e with
                     | Log (GeneratedPassword text) => [text]
                     | _ => []
                     end) events.

(** The texts the clipboard accepted. *)
Definition copied (events : list event) : list string :=
  flat_map (fun e => match e with
                     | Clipboard text => [text]
                     | _ => []
                     end) events.


(** ** The actions of [bin/passgen.js] *)

Module LegacyRun.

(** What the runtime fixes: the longest typed array it allocates, and the
    message of the error with which [crypto.getRandomValues] refuses an
    array of more than 65536 bytes. *)
Record Platform := {
  maxTypedArrayLength : Z;
  quotaMessage : string
}.

(** [new Uint8Array(length)]: the number of elements.  [NaN] converts to
    0; a negative length or one the runtime cannot allocate is a
    [RangeError]. *)
Definition newUint8Array (p : Platform) (length : number)
  : completion nat :=
  match length with
  | NaN => Return 0
  | Num n =>
      if ((n <? 0) || (maxTypedArrayLength p <? n))%Z
      then Throw (RangeError length)
      else Return (Z.to_nat n)
  end.

(** [crypto.getRandomValues(array)] on an array of [size] bytes. *)
Definition getRandomValues (p : Platform) (size : nat) (g : RNG)
  : completion (list byte) * RNG :=
  if (65536 <? Z.of_nat size)%Z
  then (Throw (Error (quotaMessage p)), g)
  else (Return (map (entropy g) (seq (drawn g) size)),
        {| entropy := entropy g; drawn := drawn g + size |}).

(** [generatePassword] of the older script.  Its callers always pass the
    [length] key, so the default [length = 16] of the destructuring never
    applies. *)
Definition generatePassword (p : Platform) (options : PasswordOptions)
  (g : RNG) : completion string * RNG :=
  let charset := composeCharset options in
  if (String.length charset =? 0)%nat
  then (Throw (Error noCharacterSets), g)
  else
    match newUint8Array p (length options) with
    | Return size =>
        match getRandomValues p size g with
        | (Return array, g') =>
            (Return (fill charset array (iterations (length options)) 0 ""),
             g')
        | (Throw e, g') => (Throw e, g')
        | (Exit code, g') => (Exit code, g')
        end
    | Throw e => (Throw e, g)
    | Exit code => (Exit code, g)
    end.

(** The action of the default command. *)
Definition defaultAction (p : Platform) (options : CommandOptions) : M unit :=
  tryCatch
    (let length := parseInt (cmd_length options) in
     (if isNaN length || lt length 1
      then console_error LengthNotPositive ;; process_exit 1
      else ret tt) ;;
     (if gt length 256
      then console_error LengthTooLarge ;; process_exit 1
      else ret tt) ;;
     password <- withRng (generatePassword p
                            (Legacy.passwordOptionsOf length options)) ;;
     if cmd_copy options
     then Legacy.copyToClipboard password
     else console_log (GeneratedPassword password))
    (fun error =>
       console_error (ErrorGenerating error) ;; process_exit 1).

(** The body shared by the actions of [simple] and [strong], as a function
    of [options.length]: the length is parsed and passed on as it is, and
    the password is always copied.  ([pin] has the same shape with a message
    of its own in the handler.) *)
Definition presetAction (p : Platform) (config : number -> PasswordOptions)
  (lengthText : string) : M unit :=
  tryCatch
    (let length := parseInt lengthText in
     password <- withRng (generatePassword p (config length)) ;;
     Legacy.copyToClipboard password)
    (fun error =>
       console_error (ErrorGenerating error) ;; process_exit 1).

(** The defaults the presets declare for [-l, --length].  As in the newer
    program the root command declares the option too and takes every [-l]
    of the command line, so these are the texts the actions always find in
    [options.length]. *)
Definition simpleLength : string := "12".
Definition strongLength : string := "20".
Definition pinLength : string := "6".

Definition simpleAction (p : Platform) : M unit :=
  presetAction p Legacy.simple simpleLength.


End LegacyRun.

(** ** More sample values *)

Module Sample2.

(** A runtime of the 32-bit typed array era. *)
Definition node : LegacyRun.Platform :=
  {| LegacyRun.maxTypedArrayLength := 4294967295;
     LegacyRun.quotaMessage := "The requested length exceeds 65,536 bytes" |}.

Definition noAmbiguous : PasswordOptions :=
  {| length := Num 12;
     opt_includeLowercase := None;
     opt_includeUppercase := None;
     opt_includeNumbers := None;
     opt_includeSymbols := Some true;
     opt_excludeAmbiguous := Some true |}.

Definition digits : PasswordOptions :=
  {| length := Num 4;
     opt_includeLowercase := Some false;
     opt_includeUppercase := Some false;
     opt_includeNumbers := Some true;
     opt_includeSymbols := Some false;
     opt_excludeAmbiguous := None |}.

End Sample2.

(** * Properties *)

(** ** Strings *)

Section Strings.

Lemma length_append (a b : string) :
  String.length (a ++ b) = String.length a + String.length b.
Proof.
  induction a as [|c a IH]; simpl; [reflexivity | now rewrite IH].
Qed.

Lemma append_empty_r (a : string) : a ++ "" = a.
Proof.
  induction a as [|c a IH]; simpl; [reflexivity | now rewrite IH].
Qed.

Lemma append_assoc (a b c : string) : (a ++ b) ++ c = a ++ (b ++ c).
Proof.
  induction a as [|x a IH]; simpl; [reflexivity | now rewrite IH].
Qed.

Lemma length_zero_empty (s : string) : String.length s = 0 <-> s = "".
Proof.
  destruct s; simpl; split; intros H; try reflexivity; discriminate.
Qed.

Lemma get_some_lt (s : string) :
  forall k, k < String.length s -> exists c, String.get k s = Some c.
Proof.
  induction s as [|x s IH]; simpl; intros k Hk; [lia |].
  destruct k as [|k]; [now exists x |].
  apply IH; lia.
Qed.

Lemma get_In (s : string) :
  forall k c, String.get k s = Some c -> JsString.In c s.
Proof.
  unfold JsString.In, JsString.chars.
  induction s as [|x s IH]; simpl; intros k c H; [discriminate |].
  destruct k as [|k].
  - left. congruence.
  - right. eauto.
Qed.

Lemma In_append (c : ascii) (a b : string) :
  JsString.In c (a ++ b) <-> JsString.In c a \/ JsString.In c b.
Proof.
  unfold JsString.In, JsString.chars.
  induction a as [|x a IH]; simpl.
  - tauto.
  - rewrite IH. tauto.
Qed.

Lemma get_append_l (a b : string) :
  forall k, k < String.length a -> String.get k (a ++ b) = String.get k a.
Proof.
  induction a as [|x a IH]; simpl; intros k Hk; [lia |].
  destruct k as [|k]; [reflexivity |].
  apply IH; lia.
Qed.

Lemma get_append_r (a b : string) :
  forall k, String.get (String.length a + k) (a ++ b) = String.get k b.
Proof.
  induction a as [|x a IH]; simpl; intros k; [reflexivity | apply IH].
Qed.

Lemma filter_filter (p q : ascii -> bool) (s : string) :
  JsString.filter p (JsString.filter q s)
  = JsString.filter (fun c => q c && p c) s.
Proof.
  induction s as [|x s IH]; simpl; [reflexivity |].
  destruct (q x); simpl; [destruct (p x) |]; now rewrite IH.
Qed.

Lemma filter_ext (p q : ascii -> bool) (s : string) :
  (forall c, p c = q c) -> JsString.filter p s = JsString.filter q s.
Proof.
  intros E. induction s as [|x s IH]; simpl; [reflexivity |].
  now rewrite E, IH.
Qed.

Lemma filter_all (s : string) : JsString.filter (fun _ => true) s = s.
Proof.
  induction s as [|x s IH]; simpl; [reflexivity | now rewrite IH].
Qed.

Lemma replaceAll_filter (c : ascii) (s : string) :
  JsString.replaceAll c s = JsString.filter (fun x => negb (Ascii.eqb x c)) s.
Proof.
  induction s as [|x s IH]; simpl; [reflexivity |].
  destruct (Ascii.eqb x c); simpl; now rewrite IH.
Qed.

(** Removing the characters of [l] one after the other keeps exactly the
    characters that are not in [l], in their order. *)
Lemma fold_replaceAll (l : list ascii) :
  forall s,
    fold_left (fun charset char => JsString.replaceAll char charset) l s
    = JsString.filter
        (fun x => negb (JsString.mem x (string_of_list_ascii l))) s.
Proof.
  induction l as [|a l IH]; intros s; simpl.
  - symmetry. apply filter_all.
  - rewrite IH, replaceAll_filter, filter_filter.
    apply filter_ext. intros c.
    rewrite negb_orb, (Ascii.eqb_sym a c). reflexivity.
Qed.

Lemma mem_In (c : ascii) (s : string) :
  JsString.mem c s = true <-> JsString.In c s.
Proof.
  unfold JsString.In, JsString.chars.
  induction s as [|x s IH]; simpl.
  - split; [discriminate | tauto].
  - rewrite orb_true_iff, IH, Ascii.eqb_eq. tauto.
Qed.

Lemma In_filter (p : ascii -> bool) (c : ascii) (s : string) :
  JsString.In c (JsString.filter p s) <-> JsString.In c s /\ p c = true.
Proof.
  unfold JsString.In, JsString.chars.
  induction s as [|x s IH]; simpl.
  - tauto.
  - destruct (p x) eqn:E; simpl; rewrite IH; intuition (subst; congruence).
Qed.

End Strings.

(** ** The composed character set *)

(** Every ambiguous character stands for itself as a pattern, so each
    [new RegExp(char, 'g')] of the loop matches that character and nothing
    else. *)
Lemma ambiguous_are_literal :
  forall c, JsString.In c CHAR_SETS.ambiguous ->
            JsString.mem c JsString.syntaxCharacters = false.
Proof.
  intros c H. unfold JsString.In in H. simpl in H.
  repeat (destruct H as [<- | H]; [reflexivity |]). contradiction.
Qed.

Lemma stripAmbiguous_filter (charset : string) :
  stripAmbiguous charset
  = JsString.filter (fun c => negb (Spec.isAmbiguous c)) charset.
Proof.
  unfold stripAmbiguous, JsString.chars. rewrite fold_replaceAll.
  now rewrite string_of_list_ascii_of_string.
Qed.

(** C2. The character set [generatePassword] composes is the concatenation
    of the lowercase, uppercase, numbers and symbols sets, in that order and
    each present iff its flag is set; with [excludeAmbiguous] it is that
    concatenation with every occurrence of every character of [il1Lo0O]
    removed and the other characters left in their order. *)
Theorem composeCharset_alphabet (o : PasswordOptions) :
  composeCharset o = Spec.alphabet o.
Proof.
  unfold composeCharset, Spec.alphabet, Spec.concatenation, Spec.part.
  assert (E : forall a : string,
             (if excludeAmbiguous o then stripAmbiguous a else a)
             = (if excludeAmbiguous o
                then JsString.filter (fun c => negb (Spec.isAmbiguous c)) a
                else a)).
  { intros a. destruct (excludeAmbiguous o);
      [apply stripAmbiguous_filter | reflexivity]. }
  rewrite E. clear E.
  destruct (includeLowercase o), (includeUppercase o),
    (includeNumbers o), (includeSymbols o);
    cbn [append]; rewrite ?append_empty_r, ?append_assoc; reflexivity.
Qed.

(** ** The generation loop *)

Section Loop.

Variable charset : string.
Variable array : list byte.
Hypothesis nonempty : charset <> "".

Lemma charset_length_pos : 0 < String.length charset.
Proof using nonempty.
  destruct charset; simpl; [congruence | lia].
Qed.

(** Inside the buffer the loop appends exactly one character per round,
    namely the one at the byte's remainder. *)
Lemma pick_inside (i : nat) (b : byte) :
  nth_error array i = Some b ->
  exists c,
    String.get (Byte.to_nat b mod String.length charset) charset = Some c
    /\ pick charset array i = String c "".
Proof using nonempty.
  intros Hb. unfold pick, JsString.at_. rewrite Hb.
  destruct (get_some_lt charset (Byte.to_nat b mod String.length charset))
    as [c Hc].
  - apply Nat.mod_upper_bound. pose proof charset_length_pos. lia.
  - exists c. now rewrite Hc.
Qed.

Lemma fill_acc (todo : nat) :
  forall i password,
    fill charset array todo i password
    = password ++ fill charset array todo i "".
Proof using Type.
  induction todo as [|todo IH]; intros i password; simpl.
  - now rewrite append_empty_r.
  - rewrite IH, (IH (S i) (pick charset array i)).
    now rewrite append_assoc.
Qed.

Lemma fill_step (todo i : nat) :
  fill charset array (S todo) i ""
  = pick charset array i ++ fill charset array todo (S i) "".
Proof using Type.
  simpl. apply fill_acc.
Qed.

Lemma fill_length (todo : nat) :
  forall i,
    i + todo <= List.length array ->
    String.length (fill charset array todo i "") = todo.
Proof using nonempty.
  induction todo as [|todo IH]; intros i Hi; [reflexivity |].
  rewrite fill_step, length_append, IH by lia.
  destruct (nth_error array i) as [b|] eqn:Hb.
  - destruct (pick_inside i b Hb) as (c & _ & ->). reflexivity.
  - apply nth_error_None in Hb. lia.
Qed.

Lemma fill_get (todo : nat) :
  forall i k,
    i + todo <= List.length array ->
    k < todo ->
    exists b,
      nth_error array (i + k) = Some b
      /\ String.get k (fill charset array todo i "")
         = String.get (Byte.to_nat b mod String.length charset) charset.
Proof using nonempty.
  induction todo as [|todo IH]; intros i k Hi Hk; [lia |].
  rewrite fill_step.
  destruct (nth_error array i) as [b|] eqn:Hb;
    [| apply nth_error_None in Hb; lia].
  destruct (pick_inside i b Hb) as (c & Hc & ->).
  destruct k as [|k].
  - exists b. rewrite Nat.add_0_r. split; [assumption |]. simpl. now rewrite Hc.
  - destruct (IH (S i) k) as (b' & Hb' & Hget); [lia | lia |].
    exists b'. replace (i + S k) with (S i + k) by lia.
    split; [assumption |]. simpl. exact Hget.
Qed.

Lemma fill_In (todo : nat) :
  forall i c,
    i + todo <= List.length array ->
    JsString.In c (fill charset array todo i "") ->
    JsString.In c charset.
Proof using nonempty.
  induction todo as [|todo IH]; intros i c Hi Hc.
  - simpl in Hc. contradiction.
  - rewrite fill_step in Hc. apply In_append in Hc.
    destruct Hc as [Hc | Hc]; [| apply (IH (S i)); [lia | assumption]].
    destruct (nth_error array i) as [b|] eqn:Hb;
      [| apply nth_error_None in Hb; lia].
    destruct (pick_inside i b Hb) as (x & Hx & E).
    rewrite E in Hc. destruct Hc as [<- | []].
    eapply get_In; eassumption.
Qed.

End Loop.

(** ** randomBytes *)

Lemma randomBytes_accepts (n : Z) (g : RNG) :
  (0 <= n <= kMaxLength)%Z ->
  randomBytes (Num n) g
  = (Return (map (entropy g) (seq (drawn g) (Z.to_nat n))),
     {| entropy := entropy g; drawn := drawn g + Z.to_nat n |}).
Proof.
  intros H. unfold randomBytes.
  replace (n <? 0)%Z with false by (symmetry; apply Z.ltb_ge; lia).
  replace (kMaxLength <? n)%Z with false by (symmetry; apply Z.ltb_ge; lia).
  reflexivity.
Qed.

(** A refused size leaves the source as it was. *)
Lemma randomBytes_throw (size : number) (g g' : RNG) (e : exn) :
  randomBytes size g = (Throw e, g') -> g' = g /\ e = RangeError size.
Proof.
  unfold randomBytes. destruct size as [|n].
  - intros H. inversion H. auto.
  - destruct ((n <? 0) || (kMaxLength <? n))%Z; intros H; inversion H; auto.
Qed.

Lemma randomBytes_no_exit (size : number) (g g' : RNG) (code : Z) :
  randomBytes size g <> (Exit code, g').
Proof.
  unfold randomBytes. destruct size as [|n]; [discriminate |].
  destruct ((n <? 0) || (kMaxLength <? n))%Z; discriminate.
Qed.

Lemma nth_error_buffer (f : nat -> byte) (d n k : nat) :
  k < n -> nth_error (map f (seq d n)) k = Some (f (d + k)).
Proof.
  intros Hk.
  rewrite nth_error_map, nth_error_seq.
  destruct (Nat.ltb_spec k n); [reflexivity | lia].
Qed.

(** ** generatePassword *)

Lemma generatePassword_empty (o : PasswordOptions) (g : RNG) :
  composeCharset o = "" ->
  generatePassword o g = (Throw (Error noCharacterSets), g).
Proof.
  intros E. unfold generatePassword. rewrite E. reflexivity.
Qed.

(** With a character set and a size the source accepts, the call returns,
    the source has handed out exactly [n] more bytes, and the password is
    built from them position by position. *)
Lemma generatePassword_returns (o : PasswordOptions) (g : RNG) (n : Z) :
  composeCharset o <> "" ->
  length o = Num n ->
  (0 <= n <= kMaxLength)%Z ->
  exists password,
    generatePassword o g
    = (Return password,
       {| entropy := entropy g; drawn := drawn g + Z.to_nat n |})
    /\ String.length password = Z.to_nat n
    /\ (forall i, i < Z.to_nat n ->
          String.get i password
          = String.get (Byte.to_nat (entropy g (drawn g + i))
                        mod String.length (composeCharset o))
                       (composeCharset o))
    /\ (forall c, JsString.In c password ->
                  JsString.In c (composeCharset o)).
Proof.
  intros Hne Hlen Hn. unfold generatePassword.
  destruct (Nat.eqb_spec (String.length (composeCharset o)) 0) as [E | _].
  - apply length_zero_empty in E. contradiction.
  - rewrite Hlen, randomBytes_accepts by assumption. cbn [iterations].
    set (array := map (entropy g) (seq (drawn g) (Z.to_nat n))).
    assert (Hsize : 0 + Z.to_nat n <= List.length array).
    { unfold array. rewrite length_map, length_seq. lia. }
    eexists. split; [reflexivity |].
    split; [now apply fill_length |].
    split.
    + intros i Hi.
      destruct (fill_get (composeCharset o) array Hne (Z.to_nat n) 0 i Hsize Hi)
        as (b & Hb & Hget).
      unfold array in Hb. simpl in Hb.
      rewrite nth_error_buffer in Hb by assumption.
      injection Hb as <-. exact Hget.
    + intros c. now apply fill_In.
Qed.

(** C1. For every configuration whose composed character set is not empty
    and whose length is an integer from 1 to 256, [generatePassword] returns
    a string of exactly [length] characters, each of which occurs in the
    character set composed for that configuration. *)
Theorem generatePassword_length_and_members
  (o : PasswordOptions) (g : RNG) (n : Z) :
  composeCharset o <> "" ->
  length o = Num n ->
  (1 <= n <= 256)%Z ->
  exists password g',
    generatePassword o g = (Return password, g')
    /\ Z.of_nat (String.length password) = n
    /\ (forall c, JsString.In c password ->
                  JsString.In c (composeCharset o)).
Proof.
  intros Hne Hlen Hn.
  destruct (generatePassword_returns o g n Hne Hlen) as (pw & Hrun & Hl & _ & Hin).
  - unfold kMaxLength. lia.
  - exists pw. eexists. split; [exact Hrun |]. split; [lia | exact Hin].
Qed.

Lemma generatePassword_length_and_members_witness :
  exists password g',
    generatePassword Sample.lettersOnly Sample.source = (Return password, g')
    /\ Z.of_nat (String.length password) = 4%Z
    /\ (forall c, JsString.In c password ->
                  JsString.In c (composeCharset Sample.lettersOnly)).
Proof.
  apply (generatePassword_length_and_members
           Sample.lettersOnly Sample.source 4).
  - vm_compute. discriminate.
  - reflexivity.
  - lia.
Defined.

(** C6. With a non-empty character set and a validated length the generator
    takes exactly [length] bytes from the random source, and the character
    at each position [i] of the result is the character of the set at index
    [b mod charset.length], where [b] is the [i]-th byte taken. *)
Theorem generatePassword_byte_by_byte
  (o : PasswordOptions) (g : RNG) (n : Z) :
  composeCharset o <> "" ->
  length o = Num n ->
  (1 <= n <= 256)%Z ->
  exists password g',
    generatePassword o g = (Return password, g')
    /\ entropy g' = entropy g
    /\ drawn g' = drawn g + Z.to_nat n
    /\ String.length password = Z.to_nat n
    /\ (forall i, i < Z.to_nat n ->
          let b := entropy g (drawn g + i) in
          exists c,
            String.get i password = Some c
            /\ String.get (Byte.to_nat b mod String.length (composeCharset o))
                          (composeCharset o) = Some c).
Proof.
  intros Hne Hlen Hn.
  destruct (generatePassword_returns o g n Hne Hlen) as (pw & Hrun & Hl & Hget & _).
  - unfold kMaxLength. lia.
  - exists pw. eexists. split; [exact Hrun |]. cbn [entropy drawn].
    split; [reflexivity |]. split; [reflexivity |]. split; [assumption |].
    intros i Hi.
    destruct (get_some_lt pw i) as [c Hc]; [lia |].
    exists c. split; [assumption |]. rewrite <- Hget by assumption. exact Hc.
Qed.

Lemma generatePassword_byte_by_byte_witness :
  exists password g',
    generatePassword Sample.lettersOnly Sample.later = (Return password, g')
    /\ entropy g' = entropy Sample.later
    /\ drawn g' = 3 + 4
    /\ String.length password = 4
    /\ (forall i, i < 4 ->
          let b := entropy Sample.later (3 + i) in
          exists c,
            String.get i password = Some c
            /\ String.get
                 (Byte.to_nat b
                  mod String.length (composeCharset Sample.lettersOnly))
                 (composeCharset Sample.lettersOnly) = Some c).
Proof.
  apply (generatePassword_byte_by_byte Sample.lettersOnly Sample.later 4).
  - vm_compute. discriminate.
  - reflexivity.
  - lia.
Defined.

Lemma map_seq_agree (f h : nat -> byte) (n : nat) :
  forall d e,
    (forall i, i < n -> f (d + i) = h (e + i)) ->
    map f (seq d n) = map h (seq e n).
Proof.
  induction n as [|n IH]; intros d e H; simpl; [reflexivity |].
  f_equal.
  - specialize (H 0). rewrite !Nat.add_0_r in H. apply H. lia.
  - apply IH. intros i Hi. specialize (H (S i)).
    rewrite <- !plus_n_Sm in H. apply H. lia.
Qed.

(** C10. The password depends on the configuration and on the bytes drawn,
    and on nothing else: two calls with the same options whose sources
    deliver the same bytes where the loop reads them complete in the same
    way, with the same password. *)
Theorem generatePassword_deterministic
  (o : PasswordOptions) (g1 g2 : RNG) :
  (forall i, i < iterations (length o) ->
             entropy g1 (drawn g1 + i) = entropy g2 (drawn g2 + i)) ->
  fst (generatePassword o g1) = fst (generatePassword o g2).
Proof.
  intros Hsame. unfold generatePassword.
  destruct (String.length (composeCharset o) =? 0)%nat; [reflexivity |].
  unfold randomBytes.
  destruct (length o) as [|n]; [reflexivity |].
  destruct ((n <? 0) || (kMaxLength <? n))%Z; [reflexivity |].
  cbn [fst iterations] in *.
  now rewrite (map_seq_agree (entropy g1) (entropy g2) (Z.to_nat n)
                 (drawn g1) (drawn g2) Hsame).
Qed.

Lemma generatePassword_deterministic_witness :
  fst (generatePassword Sample.lettersOnly Sample.later)
  = fst (generatePassword Sample.lettersOnly Sample.shifted).
Proof.
  apply (generatePassword_deterministic
           Sample.lettersOnly Sample.later Sample.shifted).
  intros i _. cbn [Sample.later Sample.shifted entropy drawn].
  f_equal. lia.
Defined.

(** ** parseInt on integers *)

Section ParseInt.

Import SpecLength.

Lemma digit_code (c : ascii) :
  isDecimalDigit c = true <-> 48 <= nat_of_ascii c <= 57.
Proof.
  unfold isDecimalDigit.
  rewrite andb_true_iff, !Nat.leb_le. reflexivity.
Qed.

Lemma digit_not_space (c : ascii) :
  isDecimalDigit c = true -> isWhiteSpace c = false.
Proof.
  intros H. apply digit_code in H. unfold isWhiteSpace. cbn [existsb].
  repeat match goal with
         | |- context [Nat.eqb ?a ?b] =>
             replace (Nat.eqb a b) with false
               by (symmetry; apply Nat.eqb_neq; lia)
         end.
  reflexivity.
Qed.

Lemma digit_not (c x : ascii) :
  isDecimalDigit c = true ->
  isDecimalDigit x = false ->
  Ascii.eqb c x = false.
Proof.
  intros Hc Hx. apply Ascii.eqb_neq. congruence.
Qed.

Lemma radixDigit_decimal (c : ascii) :
  isDecimalDigit c = true ->
  radixDigit 10 c = Some (Z.of_nat (nat_of_ascii c) - 48)%Z.
Proof.
  intros H. apply digit_code in H. unfold radixDigit, digitValue.
  replace (48 <=? Z.of_nat (nat_of_ascii c))%Z with true
    by (symmetry; apply Z.leb_le; lia).
  replace (Z.of_nat (nat_of_ascii c) <=? 57)%Z with true
    by (symmetry; apply Z.leb_le; lia).
  cbn [andb].
  replace (Z.of_nat (nat_of_ascii c) - 48 <? 10)%Z with true
    by (symmetry; apply Z.ltb_lt; lia).
  reflexivity.
Qed.

Lemma radixDigit_other (c : ascii) :
  isDecimalDigit c = false -> radixDigit 10 c = None.
Proof.
  intros H. unfold radixDigit, digitValue.
  assert (Hc : ~ 48 <= nat_of_ascii c <= 57)
    by (rewrite <- digit_code; congruence).
  set (n := Z.of_nat (nat_of_ascii c)).
  assert (Hn : ~ (48 <= n <= 57)%Z) by (unfold n; lia).
  destruct ((48 <=? n) && (n <=? 57))%Z eqn:E1.
  { apply andb_true_iff in E1. rewrite !Z.leb_le in E1. lia. }
  destruct ((97 <=? n) && (n <=? 122))%Z eqn:E2.
  { apply andb_true_iff in E2. rewrite !Z.leb_le in E2.
    replace (n - 87 <? 10)%Z with false
      by (symmetry; apply Z.ltb_ge; lia). reflexivity. }
  destruct ((65 <=? n) && (n <=? 90))%Z eqn:E3; [| reflexivity].
  apply andb_true_iff in E3. rewrite !Z.leb_le in E3.
  replace (n - 55 <? 10)%Z with false
    by (symmetry; apply Z.ltb_ge; lia). reflexivity.
Qed.

Lemma digitsPrefix_end (rest : string) :
  endsNumber rest = true -> digitsPrefix 10 rest = [].
Proof.
  destruct rest as [|c rest]; [reflexivity |].
  cbn [endsNumber digitsPrefix]. intros H.
  apply negb_true_iff in H. apply orb_false_iff in H. destruct H as [H _].
  apply orb_false_iff in H. destruct H as [H _].
  now rewrite radixDigit_other.
Qed.

(** Reading the digits of [ds] and stopping at [rest] computes the value
    the decimal notation gives. *)
Lemma decimal_read (ds rest : string) :
  endsNumber rest = true ->
  forall acc z,
    decimal ds acc = Some z ->
    fold_left (fun a d => a * 10 + d)%Z (digitsPrefix 10 (ds ++ rest)) acc
    = z.
Proof.
  intros Hrest.
  induction ds as [|c ds IH]; intros acc z H.
  - cbn in *. rewrite digitsPrefix_end by assumption. cbn. congruence.
  - cbn [decimal] in H. cbn [append digitsPrefix].
    destruct (isDecimalDigit c) eqn:Hc; [| discriminate].
    rewrite radixDigit_decimal by assumption. cbn [fold_left].
    now apply IH.
Qed.

Lemma decimal_first (c : ascii) (ds : string) (acc z : Z) :
  decimal (String c ds) acc = Some z -> isDecimalDigit c = true.
Proof.
  cbn [decimal]. destruct (isDecimalDigit c); [reflexivity | discriminate].
Qed.

Lemma digitsPrefix_some (c : ascii) (ds rest : string) :
  isDecimalDigit c = true ->
  digitsPrefix 10 (String c ds ++ rest) <> [].
Proof.
  intros Hc. cbn [append digitsPrefix].
  rewrite radixDigit_decimal by assumption. discriminate.
Qed.

(** A decimal numeral followed by [rest] has no hexadecimal prefix. *)
Lemma no_hex_prefix (ds rest : string) (acc z : Z) :
  decimal ds acc = Some z ->
  endsNumber rest = true ->
  String.prefix "0x" (ds ++ rest) || String.prefix "0X" (ds ++ rest) = false.
Proof.
  intros Hd Hrest.
  assert (second : forall b tail,
             Ascii.eqb b "x" = false -> Ascii.eqb b "X" = false ->
             forall a, String.prefix "0x" (String a (String b tail))
                       || String.prefix "0X" (String a (String b tail))
                       = false).
  { intros b tail Hx HX a. cbn [String.prefix].
    apply Ascii.eqb_neq in Hx, HX.
    destruct (ascii_dec "0" a); [| reflexivity].
    destruct (ascii_dec "x" b); [congruence |].
    destruct (ascii_dec "X" b); [congruence | reflexivity]. }
  destruct ds as [|a ds].
  - cbn [append].
    destruct rest as [|c rest]; [reflexivity |].
    cbn [endsNumber] in Hrest. apply negb_true_iff in Hrest.
    apply orb_false_iff in Hrest. destruct Hrest as [Hrest HX].
    apply orb_false_iff in Hrest. destruct Hrest as [Hc Hx].
    destruct rest as [|c' rest].
    + cbn [String.prefix]. destruct (ascii_dec "0" c); reflexivity.
    + cbn [String.prefix].
      destruct (ascii_dec "0" c) as [<- |]; [discriminate Hc | reflexivity].
  - destruct ds as [|b ds].
    + cbn [append].
      destruct rest as [|c rest].
      * cbn [String.prefix]. destruct (ascii_dec "0" a); reflexivity.
      * cbn [endsNumber] in Hrest. apply negb_true_iff in Hrest.
        apply orb_false_iff in Hrest. destruct Hrest as [Hrest HX].
        apply orb_false_iff in Hrest. destruct Hrest as [_ Hx].
        now apply second.
    + cbn [append]. cbn [decimal] in Hd.
      destruct (isDecimalDigit a); [| discriminate].
      destruct (isDecimalDigit b) eqn:Hb; [| discriminate].
      apply second; apply digit_not; auto.
Qed.

(** An unsigned decimal numeral, alone or followed by something that is
    not part of a number, is read as its value. *)
Lemma unsigned_read (ds rest : string) (z : Z) :
  unsigned ds = Some z ->
  endsNumber rest = true ->
  (let str := ds ++ rest in
   let hex := String.prefix "0x" str || String.prefix "0X" str in
   let R := if hex then 16%Z else 10%Z in
   let str' := if hex then String.substring 2 (String.length str - 2) str
               else str in
   exists d digits,
     digitsPrefix R str' = d :: digits
     /\ mathInt R (d :: digits) = z).
Proof.
  intros Hu Hrest.
  destruct ds as [|c ds]; [discriminate |].
  unfold unsigned in Hu.
  cbv zeta. rewrite (no_hex_prefix _ _ _ _ Hu Hrest).
  pose proof (decimal_first _ _ _ _ Hu) as Hc.
  pose proof (decimal_read _ _ Hrest _ _ Hu) as Hread.
  destruct (digitsPrefix 10 (String c ds ++ rest)) as [|d digits] eqn:E.
  - exfalso. revert E. now apply digitsPrefix_some.
  - exists d, digits. split; [reflexivity | exact Hread].
Qed.

Lemma parseInt_integer (s rest : string) (z : Z) :
  integerValue s = Some z ->
  endsNumber rest = true ->
  parseInt (s ++ rest) = Num z.
Proof.
  intros Hs Hrest.
  destruct s as [|c s]; [discriminate |].
  unfold integerValue in Hs. unfold parseInt.
  destruct (Ascii.eqb c "-") eqn:Hminus.
  { apply Ascii.eqb_eq in Hminus. subst c.
    destruct (unsigned s) as [v|] eqn:Hu; [| discriminate].
    cbn in Hs. injection Hs as <-.
    destruct (unsigned_read s rest v Hu Hrest) as (d & digits & E & V).
    cbv zeta in E. cbn [append trimStart].
    replace (isWhiteSpace "-") with false by reflexivity.
    replace (Ascii.eqb "-" "-") with true by reflexivity.
    rewrite E, V. f_equal; lia. }
  destruct (Ascii.eqb c "+") eqn:Hplus.
  { apply Ascii.eqb_eq in Hplus. subst c.
    destruct (unsigned_read s rest z Hs Hrest) as (d & digits & E & V).
    cbv zeta in E. cbn [append trimStart].
    replace (isWhiteSpace "+") with false by reflexivity.
    replace (Ascii.eqb "+" "-") with false by reflexivity.
    replace (Ascii.eqb "+" "+") with true by reflexivity.
    rewrite E, V. f_equal; lia. }
  destruct (unsigned_read (String c s) rest z Hs Hrest)
    as (d & digits & E & V).
  cbv zeta in E. cbn [append trimStart] in *.
  rewrite (digit_not_space c) by (eapply decimal_first; exact Hs).
  rewrite Hminus, Hplus, E, V. f_equal; lia.
Qed.

End ParseInt.

(** ** parseLength *)

Lemma parseLength_cases (s : string) (w : World) :
  parseLength s w
  = match parseInt s with
    | NaN => (Exit 1%Z, record (LogError LengthNotPositive) w)
    | Num z =>
        if (z <? 1)%Z then (Exit 1%Z, record (LogError LengthNotPositive) w)
        else if (256 <? z)%Z
             then (Exit 1%Z, record (LogError LengthTooLarge) w)
             else (Return (Num z), w)
    end.
Proof.
  unfold parseLength. destruct (parseInt s) as [|z]; [reflexivity |].
  cbn [isNaN lt gt orb].
  destruct (z <? 1)%Z; [reflexivity |].
  destruct (256 <? z)%Z; reflexivity.
Qed.

(** C5. The five sample inputs: ["0"], ["-5"] and ["abc"] are refused as not
    positive, ["257"] as too large, and ["256"] is returned as 256. *)
Theorem parseLength_examples (w : World) :
  parseLength "0" w = (Exit 1%Z, record (LogError LengthNotPositive) w)
  /\ parseLength "-5" w = (Exit 1%Z, record (LogError LengthNotPositive) w)
  /\ parseLength "abc" w = (Exit 1%Z, record (LogError LengthNotPositive) w)
  /\ parseLength "257" w = (Exit 1%Z, record (LogError LengthTooLarge) w)
  /\ parseLength "256" w = (Return (Num 256), w).
Proof.
  rewrite !parseLength_cases. repeat split; reflexivity.
Qed.

(** C4, as the specification states it, fails: the text [12.5] is not an
    integer, so the validator of the specification refuses it, while
    [parseLength] reads the leading [12] and returns it. *)
Lemma parseLength_truncates_fraction :
  SpecLength.validateLength "12.5" = inl SpecLength.InvalidLengthError
  /\ parseLength "12.5" Sample.working = (Return (Num 12), Sample.working).
Proof.
  split; reflexivity.
Qed.

(** C4, amended. [parseLength] reads the leading integer of the text the
    way [parseInt] does.  It reports an invalid length when there is no
    leading integer or that integer is below 1, a too large length when it
    exceeds 256, and otherwise returns that integer.  On a text that is an
    integer (an optional sign and decimal digits) this is the validator of
    the specification; what follows the integer without continuing the
    number is ignored, so [12.5] is accepted as 12. *)
Theorem parseLength_reads_leading_integer (s : string) (w : World) :
  (forall z rest,
      SpecLength.integerValue s = Some z ->
      SpecLength.endsNumber rest = true ->
      parseLength (s ++ rest) w
      = SpecLength.reported (SpecLength.validateLength s) w)
  /\ (parseInt s = NaN ->
      parseLength s w = (Exit 1%Z, record (LogError LengthNotPositive) w))
  /\ (forall z,
        parseInt s = Num z ->
        ((z < 1)%Z ->
         parseLength s w = (Exit 1%Z, record (LogError LengthNotPositive) w))
        /\ ((256 < z)%Z ->
            parseLength s w = (Exit 1%Z, record (LogError LengthTooLarge) w))
        /\ ((1 <= z <= 256)%Z -> parseLength s w = (Return (Num z), w))).
Proof.
  split; [| split].
  - intros z rest Hz Hrest.
    rewrite parseLength_cases, (parseInt_integer s rest z Hz Hrest).
    unfold SpecLength.validateLength. rewrite Hz.
    destruct (z <? 1)%Z; [reflexivity |].
    destruct (256 <? z)%Z; reflexivity.
  - intros E. now rewrite parseLength_cases, E.
  - intros z E. rewrite parseLength_cases, E.
    split; [| split]; intros H.
    + apply Z.ltb_lt in H. now rewrite H.
    + replace (z <? 1)%Z with false by (symmetry; apply Z.ltb_ge; lia).
      apply Z.ltb_lt in H. now rewrite H.
    + replace (z <? 1)%Z with false by (symmetry; apply Z.ltb_ge; lia).
      replace (256 <? z)%Z with false by (symmetry; apply Z.ltb_ge; lia).
      reflexivity.
Qed.

Lemma parseLength_reads_leading_integer_witness :
  parseLength ("12" ++ ".5") Sample.working
  = SpecLength.reported (SpecLength.validateLength "12") Sample.working
  /\ parseLength "300" Sample.working
     = (Exit 1%Z, record (LogError LengthTooLarge) Sample.working).
Proof.
  split.
  - destruct (parseLength_reads_leading_integer "12" Sample.working)
      as [H _].
    apply (H 12%Z ".5"); reflexivity.
  - destruct (parseLength_reads_leading_integer "300" Sample.working)
      as (_ & _ & H).
    destruct (H 300%Z) as (_ & Hlarge & _); [reflexivity |].
    apply Hlarge. lia.
Defined.

(** ** Runs of the handler *)

Lemma generatePassword_throw (o : PasswordOptions) (g g' : RNG) (e : exn) :
  generatePassword o g = (Throw e, g') -> g' = g.
Proof.
  unfold generatePassword.
  destruct (String.length (composeCharset o) =? 0)%nat.
  - intros H. now inversion H.
  - destruct (randomBytes (length o) g) as [[array | e0 | code] g0] eqn:R;
      intros H; inversion H; subst.
    now apply randomBytes_throw in R.
Qed.

Lemma generatePassword_no_exit (o : PasswordOptions) (g g' : RNG) (code : Z) :
  generatePassword o g <> (Exit code, g').
Proof.
  unfold generatePassword.
  destruct (String.length (composeCharset o) =? 0)%nat; [discriminate |].
  destruct (randomBytes (length o) g) as [[array | e0 | c] g0] eqn:R;
    try discriminate.
  now apply randomBytes_no_exit in R.
Qed.

Lemma copyToClipboard_rejected (text message : string) (w : World) :
  clipboardRejects w text = Some message ->
  copyToClipboard text w
  = (Return tt,
     record (Log (GeneratedPassword text))
            (record (LogError (FailedToCopy (Error message))) w)).
Proof.
  intros H.
  unfold copyToClipboard, tryCatch, bind, clipboardy_write.
  now rewrite H.
Qed.

Lemma copyToClipboard_accepted (text : string) (w : World) :
  clipboardRejects w text = None ->
  copyToClipboard text w
  = (Return tt,
     record (Log CopiedToClipboard)
            (record (Log (GeneratedPassword text))
                    (record (Clipboard text) w))).
Proof.
  intros H.
  unfold copyToClipboard, tryCatch, bind, clipboardy_write.
  now rewrite H.
Qed.

Lemma legacy_copyToClipboard_rejected (text message : string) (w : World) :
  clipboardRejects w text = Some message ->
  Legacy.copyToClipboard text w
  = (Return tt,
     record (Log (GeneratedPassword text))
            (record (LogError (FailedToCopy (Error message))) w)).
Proof.
  intros H.
  unfold Legacy.copyToClipboard, tryCatch, bind, clipboardy_write.
  now rewrite H.
Qed.

(** Either way the call returns, shows the password, and leaves the random
    source alone. *)
Lemma copyToClipboard_returns (text : string) (w : World) :
  exists w',
    copyToClipboard text w = (Return tt, w')
    /\ rng w' = rng w
    /\ In (Log (GeneratedPassword text)) (trace w').
Proof.
  destruct (clipboardRejects w text) as [message|] eqn:H.
  - rewrite (copyToClipboard_rejected _ _ _ H). eexists.
    split; [reflexivity |]. split; [reflexivity |].
    cbn. apply in_or_app. right. now left.
  - rewrite (copyToClipboard_accepted _ _ H). eexists.
    split; [reflexivity |]. split; [reflexivity |].
    cbn. apply in_or_app. left. apply in_or_app. right. now left.
Qed.

(** The output step of the handler. *)
Lemma output_returns (copy : bool) (password : string) (w : World) :
  exists w',
    (if copy then copyToClipboard password
     else console_log (GeneratedPassword password)) w = (Return tt, w')
    /\ rng w' = rng w
    /\ In (Log (GeneratedPassword password)) (trace w').
Proof.
  destruct copy; [apply copyToClipboard_returns |].
  eexists. split; [reflexivity |]. split; [reflexivity |].
  cbn. apply in_or_app. right. now left.
Qed.

(** The handler, step by step: the length is checked first, then the
    password is generated, then it is put out; whatever is thrown on the way
    is reported and ends the process. *)
Lemma handlePasswordGeneration_run
  (options : CommandOptions) (passwordOptions : PartialPasswordOptions)
  (w : World) :
  handlePasswordGeneration options passwordOptions w
  = match parseLength (cmd_length options) w with
    | (Return length, w1) =>
        match generatePassword
                (passwordOptionsOf length options passwordOptions) (rng w1)
        with
        | (Return password, g) =>
            (if cmd_copy options then copyToClipboard password
             else console_log (GeneratedPassword password)) (setRng g w1)
        | (Throw e, g) =>
            (Exit 1%Z, record (LogError (ErrorGenerating e)) (setRng g w1))
        | (Exit code, g) => (Exit code, setRng g w1)
        end
    | (Throw e, w1) => (Exit 1%Z, record (LogError (ErrorGenerating e)) w1)
    | (Exit code, w1) => (Exit code, w1)
    end.
Proof.
  unfold handlePasswordGeneration, tryCatch at 1, bind at 1.
  destruct (parseLength (cmd_length options) w) as [[len | e | code] w1];
    try reflexivity.
  unfold bind, withRng.
  destruct (generatePassword (passwordOptionsOf len options passwordOptions)
              (rng w1)) as [[password | e | code] g]; try reflexivity.
  destruct (output_returns (cmd_copy options) password (setRng g w1))
    as (w' & -> & _). reflexivity.
Qed.

Lemma parseLength_keeps_rng (s : string) (w w' : World)
  (r : completion number) :
  parseLength s w = (r, w') -> rng w' = rng w.
Proof.
  rewrite parseLength_cases.
  destruct (parseInt s) as [|z];
    [| destruct (z <? 1)%Z; [| destruct (256 <? z)%Z]];
    intros H; inversion H; reflexivity.
Qed.

Lemma composeCharset_nothing (o : PasswordOptions) :
  includeLowercase o = false ->
  includeUppercase o = false ->
  includeNumbers o = false ->
  includeSymbols o = false ->
  composeCharset o = "".
Proof.
  intros H1 H2 H3 H4. unfold composeCharset.
  rewrite H1, H2, H3, H4.
  destruct (excludeAmbiguous o); reflexivity.
Qed.

(** A run of the handler that does not return normally has exited with
    status 1, has printed one error line and nothing else, and has left the
    random source where it was. *)
Lemma handlePasswordGeneration_failure
  (options : CommandOptions) (passwordOptions : PartialPasswordOptions)
  (w w' : World) (r : completion unit) :
  handlePasswordGeneration options passwordOptions w = (r, w') ->
  r <> Return tt ->
  r = Exit 1%Z
  /\ rng w' = rng w
  /\ exists l, trace w' = (trace w ++ [LogError l])%list.
Proof.
  rewrite handlePasswordGeneration_run, parseLength_cases.
  assert (bad : forall l,
             (Exit 1%Z, record (LogError l) w) = (r, w') ->
             r <> Return tt ->
             r = Exit 1%Z /\ rng w' = rng w
             /\ exists l, trace w' = (trace w ++ [LogError l])%list).
  { intros l H _. inversion H. subst. cbn. eauto. }
  destruct (parseInt (cmd_length options)) as [|z]; [apply bad |].
  destruct (z <? 1)%Z; [apply bad |].
  destruct (256 <? z)%Z; [apply bad |].
  destruct (generatePassword
              (passwordOptionsOf (Num z) options passwordOptions) (rng w))
    as [[password | e | code] g] eqn:G.
  - destruct (output_returns (cmd_copy options) password (setRng g w))
      as (w1 & -> & _).
    intros H Hr. inversion H. subst. contradiction.
  - apply generatePassword_throw in G. subst g.
    intros H _. inversion H. subst. cbn. eauto.
  - now apply generatePassword_no_exit in G.
Qed.

(** C3. When the composed character set is empty, which is the case
    whenever all four inclusion flags are off, [generatePassword] throws the
    no-character-sets error, returns no password and leaves the random
    source untouched.  The length is checked before anything is drawn, and
    every run of the handler that ends in an error has drawn no random
    byte. *)
Theorem errors_draw_no_randomness
  (o : PasswordOptions) (g : RNG)
  (options : CommandOptions) (passwordOptions : PartialPasswordOptions)
  (w : World) :
  (composeCharset o = "" ->
   generatePassword o g = (Throw (Error noCharacterSets), g))
  /\ (includeLowercase o = false ->
      includeUppercase o = false ->
      includeNumbers o = false ->
      includeSymbols o = false ->
      composeCharset o = "")
  /\ (forall r w',
        parseLength (cmd_length options) w = (r, w') -> rng w' = rng w)
  /\ (forall r w',
        handlePasswordGeneration options passwordOptions w = (r, w') ->
        r <> Return tt ->
        r = Exit 1%Z
        /\ rng w' = rng w
        /\ exists l, trace w' = (trace w ++ [LogError l])%list).
Proof.
  split; [apply generatePassword_empty |].
  split; [apply composeCharset_nothing |].
  split.
  - intros r w'. apply parseLength_keeps_rng.
  - intros r w'. apply handlePasswordGeneration_failure.
Qed.

Lemma errors_draw_no_randomness_witness :
  generatePassword Sample.nothing Sample.source
  = (Throw (Error noCharacterSets), Sample.source)
  /\ rng (snd (program (Default [NoLowercase; NoUppercase; NoNumbers;
                                 NoSymbols]) Sample.working))
     = rng Sample.working.
Proof.
  pose proof (errors_draw_no_randomness
                Sample.nothing Sample.source
                (parseOptions [NoLowercase; NoUppercase; NoNumbers; NoSymbols])
                noOverrides Sample.working) as (Hthrow & Hempty & _ & Hrun).
  split.
  - apply Hthrow. apply Hempty; reflexivity.
  - eapply Hrun.
    + reflexivity.
    + vm_compute. discriminate.
Defined.

(** C9. When the clipboard rejects the text after a password has been
    generated, the handler still returns normally and the password is
    printed, after the line that reports the failure.  The older script's
    [copyToClipboard] does the same. *)
Theorem clipboard_failure_still_shows_password
  (options : CommandOptions) (passwordOptions : PartialPasswordOptions)
  (w : World) (length : number) (password message : string) (g : RNG) :
  parseLength (cmd_length options) w = (Return length, w) ->
  generatePassword (passwordOptionsOf length options passwordOptions) (rng w)
  = (Return password, g) ->
  cmd_copy options = true ->
  clipboardRejects w password = Some message ->
  let shown :=
    record (Log (GeneratedPassword password))
           (record (LogError (FailedToCopy (Error message))) (setRng g w)) in
  handlePasswordGeneration options passwordOptions w = (Return tt, shown)
  /\ Legacy.copyToClipboard password (setRng g w) = (Return tt, shown)
  /\ In (Log (GeneratedPassword password)) (trace shown).
Proof.
  intros Hlen Hgen Hcopy Hclip shown.
  split; [| split].
  - rewrite handlePasswordGeneration_run, Hlen, Hgen, Hcopy.
    now apply copyToClipboard_rejected.
  - now apply legacy_copyToClipboard_rejected.
  - cbn. apply in_or_app. right. now left.
Qed.

Lemma clipboard_failure_still_shows_password_witness :
  let shown :=
    record (Log (GeneratedPassword "074185"))
           (record (LogError (FailedToCopy (Error "no clipboard available")))
                   (setRng {| entropy := Sample.bytes; drawn := 6 |}
                           Sample.headless)) in
  handlePasswordGeneration
    (pin.commandOptions (parsePresetOptions pin.defaultLength []))
    pin.passwordOptions Sample.headless = (Return tt, shown)
  /\ Legacy.copyToClipboard "074185"
       (setRng {| entropy := Sample.bytes; drawn := 6 |} Sample.headless)
     = (Return tt, shown)
  /\ In (Log (GeneratedPassword "074185")) (trace shown).
Proof.
  apply (clipboard_failure_still_shows_password
           (pin.commandOptions (parsePresetOptions pin.defaultLength []))
           pin.passwordOptions Sample.headless (Num 6)
           "074185" "no clipboard available"
           {| entropy := Sample.bytes; drawn := 6 |});
    reflexivity.
Defined.

(** ** Commands *)

Lemma program_commandOf (inv : Invocation) :
  program inv
  = handlePasswordGeneration (fst (commandOf inv)) (snd (commandOf inv)).
Proof.
  destruct inv; reflexivity.
Qed.

(** A command whose length text reads as an integer from 1 to 256 and whose
    flags leave some character generates a password of that length from the
    composed character set and puts it out. *)
Lemma handlePasswordGeneration_generates
  (options : CommandOptions) (passwordOptions : PartialPasswordOptions)
  (w : World) (n : Z) :
  parseInt (cmd_length options) = Num n ->
  (1 <= n <= 256)%Z ->
  p_length passwordOptions = None ->
  composeCharset (passwordOptionsOf (Num n) options passwordOptions) <> "" ->
  exists password g,
    generatePassword (passwordOptionsOf (Num n) options passwordOptions) (rng w)
    = (Return password, g)
    /\ handlePasswordGeneration options passwordOptions w
       = (if cmd_copy options then copyToClipboard password
          else console_log (GeneratedPassword password)) (setRng g w)
    /\ String.length password = Z.to_nat n
    /\ (forall c,
          JsString.In c password ->
          JsString.In c
            (composeCharset (passwordOptionsOf (Num n) options passwordOptions))).
Proof.
  intros Hparse Hn Hkey Hne.
  destruct (generatePassword_returns
              (passwordOptionsOf (Num n) options passwordOptions) (rng w) n)
    as (password & Hgen & Hlen & _ & Hin).
  - assumption.
  - cbn. now rewrite Hkey.
  - unfold kMaxLength. lia.
  - exists password. eexists. split; [exact Hgen |].
    split; [| split; assumption].
    rewrite handlePasswordGeneration_run, parseLength_cases, Hparse.
    replace (n <? 1)%Z with false by (symmetry; apply Z.ltb_ge; lia).
    replace (256 <? n)%Z with false by (symmetry; apply Z.ltb_ge; lia).
    now rewrite Hgen.
Qed.

Lemma members_forallb (password charset : string) :
  (forall c, JsString.In c password -> JsString.In c charset) ->
  forallb (fun c => JsString.mem c charset) (JsString.chars password) = true.
Proof.
  intros H. apply forallb_forall. intros c Hc.
  apply mem_In. now apply H.
Qed.

(** C7, as the specification states it, fails for [src/passgen.ts]: without
    arguments the default command passes [includeSymbols: true], and the
    password of the sample run contains symbols. *)
Lemma default_command_includes_symbols :
  includeSymbols (passwordOptionsOf (Num 16) (parseOptions []) noOverrides)
  = true
  /\ trace (snd (program (Default []) Sample.working))
     = [Clipboard "aL-x8jUdO]A@mXgR";
        Log (GeneratedPassword "aL-x8jUdO]A@mXgR");
        Log CopiedToClipboard]
  /\ JsString.mem "-" "aL-x8jUdO]A@mXgR" = true
  /\ JsString.mem "-" CHAR_SETS.symbols = true.
Proof.
  repeat split; reflexivity.
Qed.

(** C7, amended. Without a preset and without switches the configuration
    used for generation has length 16, includes lowercase, uppercase and
    numbers, has ambiguous-exclusion off, and includes symbols, because the
    switch of [src/passgen.ts] is [--no-symbols]; the run generates with
    that configuration and copies the result.  In [bin/passgen.js], whose
    switch is [-s, --symbols], the same command excludes symbols. *)
Theorem default_command_configuration (w : World) :
  let config := passwordOptionsOf (Num 16) (parseOptions []) noOverrides in
  let legacy := Legacy.passwordOptionsOf (Num 16) (Legacy.parseOptions []) in
  parseLength (cmd_length (parseOptions [])) w = (Return (Num 16), w)
  /\ (exists password g,
         generatePassword config (rng w) = (Return password, g)
         /\ program (Default []) w = copyToClipboard password (setRng g w))
  /\ (length config = Num 16
      /\ includeLowercase config = true
      /\ includeUppercase config = true
      /\ includeNumbers config = true
      /\ includeSymbols config = true
      /\ excludeAmbiguous config = false)
  /\ (parseInt (cmd_length (Legacy.parseOptions [])) = Num 16
      /\ includeLowercase legacy = true
      /\ includeUppercase legacy = true
      /\ includeNumbers legacy = true
      /\ includeSymbols legacy = false
      /\ excludeAmbiguous legacy = false).
Proof.
  intros config legacy.
  split; [now rewrite parseLength_cases |].
  split; [| split; repeat split; reflexivity].
  destruct (handlePasswordGeneration_generates
              (parseOptions []) noOverrides w 16)
    as (password & g & Hgen & Hrun & _).
  - reflexivity.
  - lia.
  - reflexivity.
  - vm_compute. discriminate.
  - exists password, g. split; [exact Hgen |].
    rewrite program_commandOf. exact Hrun.
Qed.

Lemma preset_length_kept (argv : list PresetSwitch) :
  forall o, preset_length (fold_left setPresetSwitch argv o) = preset_length o.
Proof.
  induction argv as [|s argv IH]; intros o; [reflexivity |].
  cbn [fold_left]. rewrite IH. destruct s; reflexivity.
Qed.

Lemma preset_length_default (defaultLength : string)
  (argv : list PresetSwitch) :
  preset_length (parsePresetOptions defaultLength argv) = defaultLength.
Proof.
  unfold parsePresetOptions. now rewrite preset_length_kept.
Qed.

(** C8, as the specification states it, fails for [bin/passgen.js]: its
    [simple] passes [includeSymbols: false], so the character set of that
    preset has no symbol and the password of the sample run has none. *)
Lemma legacy_simple_excludes_symbols :
  includeSymbols (Legacy.simple (parseInt LegacyRun.simpleLength)) = false
  /\ composeCharset (Legacy.simple (parseInt LegacyRun.simpleLength))
     = "abcdefghjkmnpqrstuvwxyzABCDEFGHIJKMNPQRSTUVWXYZ23456789"
  /\ LegacyRun.simpleAction Sample2.node Sample.working
     = (Return tt,
        record (Log CopiedToClipboard)
               (record (Clipboard "aQwbRxcdTzeU")
                       (setRng {| entropy := Sample.bytes; drawn := 12 |}
                               Sample.working))).
Proof.
  repeat split; reflexivity.
Qed.

(** C8, amended. In [src/passgen.ts] the presets fix the five flags and the
    length whatever switches are given: [simple] has length 12, includes all
    four sets and excludes ambiguous characters, [strong] has length 20,
    includes all four sets and keeps ambiguous characters, [pin] has length
    6 and includes numbers only, and a run of [pin] puts out six characters
    that are all digits.  In [bin/passgen.js] the lengths and [strong] and
    [pin] are the same, and [simple] leaves the symbols out. *)
Theorem preset_configurations (w : World) :
  (forall argv length,
      passwordOptionsOf length (fst (commandOf (Simple argv)))
                        (snd (commandOf (Simple argv)))
      = {| length := length;
           opt_includeLowercase := Some true;
           opt_includeUppercase := Some true;
           opt_includeNumbers := Some true;
           opt_includeSymbols := Some true;
           opt_excludeAmbiguous := Some true |})
  /\ (forall argv length,
        passwordOptionsOf length (fst (commandOf (Strong argv)))
                          (snd (commandOf (Strong argv)))
        = {| length := length;
             opt_includeLowercase := Some true;
             opt_includeUppercase := Some true;
             opt_includeNumbers := Some true;
             opt_includeSymbols := Some true;
             opt_excludeAmbiguous := Some false |})
  /\ (forall argv length,
        passwordOptionsOf length (fst (commandOf (Pin argv)))
                          (snd (commandOf (Pin argv)))
        = {| length := length;
             opt_includeLowercase := Some false;
             opt_includeUppercase := Some false;
             opt_includeNumbers := Some true;
             opt_includeSymbols := Some false;
             opt_excludeAmbiguous := Some false |})
  /\ (forall argv,
        parseLength (cmd_length (fst (commandOf (Simple argv)))) w
        = (Return (Num 12), w))
  /\ (forall argv,
        parseLength (cmd_length (fst (commandOf (Strong argv)))) w
        = (Return (Num 20), w))
  /\ (forall argv,
        parseLength (cmd_length (fst (commandOf (Pin argv)))) w
        = (Return (Num 6), w))
  /\ (exists password g,
         generatePassword
           (passwordOptionsOf (Num 6) (fst (commandOf (Pin [])))
                              (snd (commandOf (Pin [])))) (rng w)
         = (Return password, g)
         /\ program (Pin []) w = copyToClipboard password (setRng g w)
         /\ String.length password = 6
         /\ forallb (fun c => JsString.mem c CHAR_SETS.numbers)
                    (JsString.chars password) = true)
  /\ Legacy.simple (parseInt LegacyRun.simpleLength)
     = {| length := Num 12;
          opt_includeLowercase := Some true;
          opt_includeUppercase := Some true;
          opt_includeNumbers := Some true;
          opt_includeSymbols := Some false;
          opt_excludeAmbiguous := Some true |}
  /\ Legacy.strong (parseInt LegacyRun.strongLength)
     = {| length := Num 20;
          opt_includeLowercase := Some true;
          opt_includeUppercase := Some true;
          opt_includeNumbers := Some true;
          opt_includeSymbols := Some true;
          opt_excludeAmbiguous := Some false |}
  /\ Legacy.pin (parseInt LegacyRun.pinLength)
     = {| length := Num 6;
          opt_includeLowercase := Some false;
          opt_includeUppercase := Some false;
          opt_includeNumbers := Some true;
          opt_includeSymbols := Some false;
          opt_excludeAmbiguous := Some false |}.
Proof.
  assert (len : forall inv d n,
             cmd_length (fst (commandOf inv)) = d ->
             parseInt d = Num n -> (1 <= n <= 256)%Z ->
             parseLength (cmd_length (fst (commandOf inv))) w
             = (Return (Num n), w)).
  { intros inv d n -> Hn Hr. rewrite parseLength_cases, Hn.
    replace (n <? 1)%Z with false by (symmetry; apply Z.ltb_ge; lia).
    replace (256 <? n)%Z with false by (symmetry; apply Z.ltb_ge; lia).
    reflexivity. }
  split; [reflexivity |].
  split; [reflexivity |].
  split; [reflexivity |].
  split.
  { intros argv. apply (len _ simple.defaultLength);
      [apply preset_length_default | reflexivity | lia]. }
  split.
  { intros argv. apply (len _ strong.defaultLength);
      [apply preset_length_default | reflexivity | lia]. }
  split.
  { intros argv. apply (len _ pin.defaultLength);
      [apply preset_length_default | reflexivity | lia]. }
  split; [| repeat split; reflexivity].
  destruct (handlePasswordGeneration_generates
              (fst (commandOf (Pin []))) (snd (commandOf (Pin []))) w 6)
    as (password & g & Hgen & Hrun & Hlen & Hin).
  - reflexivity.
  - lia.
  - reflexivity.
  - vm_compute. discriminate.
  - exists password, g. split; [exact Hgen |].
    split; [rewrite program_commandOf; exact Hrun |].
    split; [exact Hlen |].
    now apply members_forallb.
Qed.


(** ** Further instances *)

(** Lowercase letters without the ambiguous ones: [i], [l] and [o] go, the
    other letters stay in their order. *)
Example lowercase_without_ambiguous :
  composeCharset Sample.lettersOnly = "abcdefghjkmnpqrstuvwxyz".
Proof. reflexivity. Qed.

(** The [strong] preset draws from all 88 characters of the four sets. *)
Example strong_alphabet :
  composeCharset
    (passwordOptionsOf (Num 20) (fst (commandOf (Strong [])))
                       (snd (commandOf (Strong []))))
  = CHAR_SETS.lowercase ++ CHAR_SETS.uppercase ++ CHAR_SETS.numbers
    ++ CHAR_SETS.symbols
  /\ String.length (CHAR_SETS.lowercase ++ CHAR_SETS.uppercase
                    ++ CHAR_SETS.numbers ++ CHAR_SETS.symbols) = 88.
Proof. split; reflexivity. Qed.

(** The presets of the older script: [simple] leaves symbols out there. *)
Lemma legacy_presets (length : number) :
  composeCharset (Legacy.simple length)
  = stripAmbiguous (CHAR_SETS.lowercase ++ CHAR_SETS.uppercase
                    ++ CHAR_SETS.numbers)
  /\ composeCharset (Legacy.strong length)
     = CHAR_SETS.lowercase ++ CHAR_SETS.uppercase ++ CHAR_SETS.numbers
       ++ CHAR_SETS.symbols
  /\ composeCharset (Legacy.pin length) = CHAR_SETS.numbers.
Proof. repeat split; reflexivity. Qed.

(** Other texts [parseLength] accepts although they are not integers. *)
Example parseLength_lenient (w : World) :
  parseLength "  42abc" w = (Return (Num 42), w)
  /\ parseLength "0x10" w = (Return (Num 16), w)
  /\ parseLength "1e3" w = (Return (Num 1), w).
Proof. rewrite !parseLength_cases. repeat split; reflexivity. Qed.


(** * More of the program *)

(** ** The composed character set *)

(** The character set is a function of the five resolved flags. *)
Lemma composeCharset_flags (o : PasswordOptions) :
  composeCharset o
  = (if excludeAmbiguous o then stripAmbiguous else fun s => s)
      ((if includeLowercase o then CHAR_SETS.lowercase else "")
       ++ (if includeUppercase o then CHAR_SETS.uppercase else "")
       ++ (if includeNumbers o then CHAR_SETS.numbers else "")
       ++ (if includeSymbols o then CHAR_SETS.symbols else "")).
Proof.
  unfold composeCharset.
  destruct (includeLowercase o), (includeUppercase o), (includeNumbers o),
    (includeSymbols o), (excludeAmbiguous o); reflexivity.
Qed.

Lemma composeCharset_empty_iff (o : PasswordOptions) :
  composeCharset o = ""
  <-> includeLowercase o = false /\ includeUppercase o = false
      /\ includeNumbers o = false /\ includeSymbols o = false.
Proof.
  split.
  - rewrite composeCharset_flags.
    destruct (includeLowercase o), (includeUppercase o), (includeNumbers o),
      (includeSymbols o), (excludeAmbiguous o);
      vm_compute; intros H; try discriminate H; auto.
  - intros (H1 & H2 & H3 & H4). now apply composeCharset_nothing.
Qed.

(** What a returning call tells about its arguments. *)
Lemma generatePassword_return_inv
  (o : PasswordOptions) (g g' : RNG) (password : string) :
  generatePassword o g = (Return password, g') ->
  exists n,
    length o = Num n /\ (0 <= n <= kMaxLength)%Z /\ composeCharset o <> "".
Proof.
  unfold generatePassword.
  destruct (Nat.eqb_spec (String.length (composeCharset o)) 0) as [E | E];
    [discriminate |].
  unfold randomBytes. destruct (length o) as [|n]; [discriminate |].
  destruct ((n <? 0) || (kMaxLength <? n))%Z eqn:R; [discriminate |].
  intros _. exists n. split; [reflexivity |].
  apply orb_false_iff in R. destruct R as [R1 R2].
  apply Z.ltb_ge in R1, R2. split; [lia |].
  intros H. apply E. now rewrite H.
Qed.

(** X1. The error about missing character sets is thrown exactly when the
    four inclusion flags are all off: excluding the ambiguous characters
    never empties a character set. *)
Theorem no_character_sets_iff (o : PasswordOptions) (g : RNG) :
  generatePassword o g = (Throw (Error noCharacterSets), g)
  <-> includeLowercase o = false /\ includeUppercase o = false
      /\ includeNumbers o = false /\ includeSymbols o = false.
Proof.
  rewrite <- composeCharset_empty_iff. split.
  - unfold generatePassword.
    destruct (Nat.eqb_spec (String.length (composeCharset o)) 0) as [E | E].
    + intros _. now apply length_zero_empty.
    + unfold randomBytes. destruct (length o) as [|n]; [discriminate |].
      destruct ((n <? 0) || (kMaxLength <? n))%Z; discriminate.
  - apply generatePassword_empty.
Qed.

Lemma no_character_sets_iff_witness :
  generatePassword Sample.nothing Sample.source
  = (Throw (Error noCharacterSets), Sample.source)
  /\ generatePassword Sample2.noAmbiguous Sample.source
     <> (Throw (Error noCharacterSets), Sample.source).
Proof.
  split.
  - apply (no_character_sets_iff Sample.nothing Sample.source).
    repeat split; reflexivity.
  - intros H.
    apply (no_character_sets_iff Sample2.noAmbiguous Sample.source) in H.
    destruct H as (H & _). discriminate H.
Defined.

(** X2. With [excludeAmbiguous] on, no character of [il1Lo0O] is in the
    character set, and so none is in any password the call returns. *)
Theorem no_ambiguous_character
  (o : PasswordOptions) (g g' : RNG) (password : string) :
  excludeAmbiguous o = true ->
  generatePassword o g = (Return password, g') ->
  forall c, JsString.In c password ->
            JsString.mem c CHAR_SETS.ambiguous = false.
Proof.
  intros Hx Hrun c Hc.
  destruct (generatePassword_return_inv o g g' password Hrun)
    as (n & Hlen & Hn & Hne).
  destruct (generatePassword_returns o g n Hne Hlen Hn)
    as (pw & Hrun' & _ & _ & Hin).
  rewrite Hrun in Hrun'. injection Hrun' as -> _.
  apply Hin in Hc. rewrite composeCharset_alphabet in Hc.
  unfold Spec.alphabet in Hc. rewrite Hx in Hc.
  apply In_filter in Hc. destruct Hc as [_ Hc].
  now apply negb_true_iff in Hc.
Qed.

Lemma no_ambiguous_character_witness :
  forallb (fun c => negb (JsString.mem c CHAR_SETS.ambiguous))
          (JsString.chars "aQ;H-A^dT.K]") = true.
Proof.
  apply forallb_forall. intros c Hc. apply negb_true_iff.
  apply (no_ambiguous_character Sample2.noAmbiguous Sample.source
           {| entropy := Sample.bytes; drawn := 12 |} "aQ;H-A^dT.K]").
  - reflexivity.
  - reflexivity.
  - exact Hc.
Defined.

Lemma nodup_check (l : list ascii) :
  nodup ascii_dec l = l -> NoDup l.
Proof.
  intros <-. apply NoDup_nodup.
Qed.

(** X3. Whatever the flags, no character occurs twice in the composed
    character set, and the set has at most 88 characters, so that every
    position of it is within the reach of one byte. *)
Theorem charset_distinct (o : PasswordOptions) :
  NoDup (JsString.chars (composeCharset o))
  /\ String.length (composeCharset o) <= 88.
Proof.
  rewrite composeCharset_flags.
  destruct (includeLowercase o), (includeUppercase o), (includeNumbers o),
    (includeSymbols o), (excludeAmbiguous o);
    (split; [apply nodup_check; vm_compute; reflexivity
            | vm_compute; repeat constructor]).
Qed.

(** ** Bytes and positions *)

Lemma byteOf_to_nat (n : nat) : n <= 255 -> Byte.to_nat (byteOf n) = n.
Proof.
  intros H. unfold byteOf.
  pose proof (Byte.to_of_nat_option_map n) as E.
  destruct (Nat.leb_spec n 255) as [_ | Hgt]; [| lia].
  destruct (Byte.of_nat n) as [b|]; [| discriminate E].
  cbn in E. now injection E.
Qed.

Lemma indexOf_get (c : ascii) (s : string) :
  JsString.In c s ->
  indexOf c s < String.length s /\ String.get (indexOf c s) s = Some c.
Proof.
  unfold JsString.In, JsString.chars.
  induction s as [|x s IH]; cbn [list_ascii_of_string List.In]; [tauto |].
  intros H. cbn [indexOf String.length].
  destruct (Ascii.eqb_spec x c) as [-> | Hne].
  - split; [lia | reflexivity].
  - destruct H as [H | H]; [contradiction |].
    destruct (IH H) as [Hlt Hget]. split; [lia | exact Hget].
Qed.

Lemma get_beyond (s : string) :
  forall k, String.length s <= k -> String.get k s = None.
Proof.
  induction s as [|x s IH]; intros k Hk; [reflexivity |].
  destruct k as [|k]; cbn in *; [lia |]. apply IH. lia.
Qed.

(** X4. Every text over the character set can come out: for a length from
    1 to 256 and a text of that length whose characters are all in the
    composed set, there is a run of the random source (the bytes that are
    the positions of the characters) on which [generatePassword] returns
    exactly that text. *)
Theorem every_password_possible
  (o : PasswordOptions) (n : Z) (text : string) :
  length o = Num n ->
  (1 <= n <= 256)%Z ->
  Z.of_nat (String.length text) = n ->
  (forall c, JsString.In c text -> JsString.In c (composeCharset o)) ->
  fst (generatePassword o (spelling (composeCharset o) text)) = Return text.
Proof.
  intros Hlen Hn Htext Hin.
  assert (Hne : composeCharset o <> "").
  { destruct text as [|c text]; [cbn in Htext; lia |].
    intros E. specialize (Hin c). rewrite E in Hin.
    apply Hin. now left. }
  destruct (generatePassword_returns
              o (spelling (composeCharset o) text) n Hne Hlen)
    as (pw & Hrun & Hpw & Hget & _); [unfold kMaxLength; lia |].
  rewrite Hrun. cbn [fst]. f_equal.
  apply String.get_correct. intros i.
  destruct (Nat.lt_ge_cases i (Z.to_nat n)) as [Hi | Hi].
  - rewrite (Hget i Hi). cbn [spelling entropy drawn Nat.add].
    destruct (get_some_lt text i) as [c Hc]; [lia |].
    rewrite Hc.
    destruct (indexOf_get c (composeCharset o)) as [Hlt Hidx].
    { apply Hin. eapply get_In. exact Hc. }
    pose proof (charset_distinct o) as [_ Hbound].
    rewrite byteOf_to_nat by lia.
    rewrite Nat.mod_small by assumption. exact Hidx.
  - rewrite !get_beyond by lia. reflexivity.
Qed.

Lemma every_password_possible_witness :
  fst (generatePassword Sample2.digits
         (spelling (composeCharset Sample2.digits) "2025"))
  = Return "2025".
Proof.
  apply (every_password_possible Sample2.digits 4 "2025").
  - reflexivity.
  - lia.
  - reflexivity.
  - intros c H. cbn in H.
    repeat (destruct H as [<- | H]; [vm_compute; tauto |]). contradiction.
Defined.

(** How many of the first [N] numbers leave the remainder [k]. *)
Lemma count_remainder (L k : nat) :
  k < L ->
  forall N,
    List.length (List.filter (fun n => Nat.eqb (n mod L) k) (seq 0 N))
    = N / L + (if (k <? N mod L)%nat then 1 else 0).
Proof.
  intros Hk. induction N as [|N IH].
  - rewrite Nat.Div0.div_0_l, Nat.Div0.mod_0_l. reflexivity.
  - rewrite seq_S, filter_app, length_app, IH. cbn [List.filter Nat.add].
    pose proof (Nat.div_mod_eq N L) as HN.
    pose proof (Nat.mod_upper_bound N L ltac:(lia)) as Hr.
    set (q := N / L) in *. set (r := N mod L) in *.
    destruct (Nat.eq_dec (S r) L) as [Hlast | Hmid].
    + assert (Hq : S N / L = S q)
        by (symmetry; apply (Nat.div_unique _ _ _ 0); lia).
      assert (Hm : S N mod L = 0)
        by (symmetry; apply (Nat.mod_unique _ _ (S q)); lia).
      rewrite Hq, Hm.
      destruct (Nat.eqb_spec r k); destruct (Nat.ltb_spec k r);
        destruct (Nat.ltb_spec k 0); cbn [List.length]; lia.
    + assert (Hq : S N / L = q)
        by (symmetry; apply (Nat.div_unique _ _ _ (S r)); lia).
      assert (Hm : S N mod L = S r)
        by (symmetry; apply (Nat.mod_unique _ _ q); lia).
      rewrite Hq, Hm.
      destruct (Nat.eqb_spec r k); destruct (Nat.ltb_spec k r);
        destruct (Nat.ltb_spec k (S r)); cbn [List.length]; lia.
Qed.

Lemma filter_map_swap {A B} (f : B -> bool) (h : A -> B) (l : list A) :
  List.filter f (map h l) = map h (List.filter (fun a => f (h a)) l).
Proof.
  induction l as [|a l IH]; cbn; [reflexivity |].
  destruct (f (h a)); cbn; now rewrite IH.
Qed.

Lemma selecting_numbers (charset : string) (k : nat) :
  List.length (selecting charset k)
  = List.length
      (List.filter (fun n => Nat.eqb (n mod String.length charset) k)
                   (seq 0 256)).
Proof.
  unfold selecting, allBytes.
  rewrite filter_map_swap, length_map.
  apply (f_equal (@List.length nat)).
  apply filter_ext_in. intros n Hn.
  apply in_seq in Hn. rewrite byteOf_to_nat by lia. reflexivity.
Qed.

Lemma selecting_In (charset : string) (k : nat) (b : byte) :
  In b (selecting charset k)
  <-> In b allBytes
      /\ Nat.eqb (Byte.to_nat b mod String.length charset) k = true.
Proof.
  unfold selecting. apply filter_In.
Qed.

(** X5. The remainder is not uniform.  Of the 256 byte values,
    [256 / L] select position [k] of a character set of [L] characters,
    and one more does when [k < 256 mod L]; each of these bytes makes the
    loop append the character at position [k]. *)
Theorem modulo_bias (charset : string) (k : nat) :
  k < String.length charset ->
  List.length (selecting charset k)
  = 256 / String.length charset
    + (if (k <? 256 mod String.length charset)%nat then 1 else 0)
  /\ (forall b, In b (selecting charset k) ->
                pick charset [b] 0 = JsString.at_ charset k).
Proof.
  intros Hk. split.
  - rewrite selecting_numbers.
    exact (count_remainder (String.length charset) k Hk 256).
  - intros b Hb.
    apply selecting_In in Hb. destruct Hb as [_ Hb].
    apply Nat.eqb_eq in Hb. unfold pick. cbn [nth_error]. now rewrite Hb.
Qed.

Lemma modulo_bias_witness :
  (List.length (selecting CHAR_SETS.numbers 5) = 26
   /\ (forall b, In b (selecting CHAR_SETS.numbers 5) ->
                 pick CHAR_SETS.numbers [b] 0 = "5"))
  /\ (List.length (selecting CHAR_SETS.numbers 6) = 25
      /\ (forall b, In b (selecting CHAR_SETS.numbers 6) ->
                    pick CHAR_SETS.numbers [b] 0 = "6")).
Proof.
  split.
  - apply (modulo_bias CHAR_SETS.numbers 5). cbn. lia.
  - apply (modulo_bias CHAR_SETS.numbers 6). cbn. lia.
Defined.

(** ** More on parseLength *)

Lemma trimStart_spaces (ws s : string) :
  forallb isWhiteSpace (JsString.chars ws) = true ->
  trimStart (ws ++ s) = trimStart s.
Proof.
  unfold JsString.chars.
  induction ws as [|c ws IH]; cbn [list_ascii_of_string forallb append];
    [reflexivity |].
  intros H. apply andb_true_iff in H. destruct H as [Hc Hws].
  cbn [trimStart]. rewrite Hc. now apply IH.
Qed.

(** X6. White space in front of the length is skipped: the text is handled
    as it would be without it. *)
Theorem parseLength_leading_space (ws s : string) (w : World) :
  forallb isWhiteSpace (JsString.chars ws) = true ->
  parseLength (ws ++ s) w = parseLength s w.
Proof.
  intros H. rewrite !parseLength_cases.
  unfold parseInt. now rewrite trimStart_spaces.
Qed.

Lemma parseLength_leading_space_witness :
  parseLength ("  " ++ "42") Sample.working = parseLength "42" Sample.working.
Proof.
  apply (parseLength_leading_space "  " "42" Sample.working). reflexivity.
Defined.

Lemma radixDigit_nonneg (R : Z) (c : ascii) (d : Z) :
  radixDigit R c = Some d -> (0 <= d)%Z.
Proof.
  unfold radixDigit, digitValue.
  set (n := Z.of_nat (nat_of_ascii c)).
  destruct ((48 <=? n) && (n <=? 57))%Z eqn:E1.
  { apply andb_true_iff in E1. rewrite !Z.leb_le in E1.
    destruct (n - 48 <? R)%Z; intros H; inversion H; lia. }
  destruct ((97 <=? n) && (n <=? 122))%Z eqn:E2.
  { apply andb_true_iff in E2. rewrite !Z.leb_le in E2.
    destruct (n - 87 <? R)%Z; intros H; inversion H; lia. }
  destruct ((65 <=? n) && (n <=? 90))%Z eqn:E3; [| discriminate].
  apply andb_true_iff in E3. rewrite !Z.leb_le in E3.
  destruct (n - 55 <? R)%Z; intros H; inversion H; lia.
Qed.

Lemma digitsPrefix_nonneg (R : Z) (s : string) :
  Forall (fun d => 0 <= d)%Z (digitsPrefix R s).
Proof.
  induction s as [|c s IH]; cbn [digitsPrefix]; [constructor |].
  destruct (radixDigit R c) as [d|] eqn:E; [| constructor].
  constructor; [eapply radixDigit_nonneg; exact E | exact IH].
Qed.

Lemma mathInt_nonneg (R : Z) (digits : list Z) :
  (0 <= R)%Z ->
  Forall (fun d => 0 <= d)%Z digits ->
  (0 <= mathInt R digits)%Z.
Proof.
  intros HR. unfold mathInt.
  assert (G : forall acc, (0 <= acc)%Z ->
                Forall (fun d => 0 <= d)%Z digits ->
                (0 <= fold_left (fun a d => a * R + d) digits acc)%Z).
  { induction digits as [|d digits IH]; intros acc Hacc H; cbn; [assumption |].
    inversion H; subst. apply IH; [nia | assumption]. }
  apply G. lia.
Qed.

Lemma parseInt_minus (ws rest : string) :
  forallb isWhiteSpace (JsString.chars ws) = true ->
  parseInt (ws ++ String "-" rest) = NaN
  \/ exists z, parseInt (ws ++ String "-" rest) = Num z /\ (z <= 0)%Z.
Proof.
  intros Hws. unfold parseInt. rewrite trimStart_spaces by assumption.
  cbn [trimStart].
  replace (isWhiteSpace "-") with false by reflexivity.
  replace (Ascii.eqb "-" "-") with true by reflexivity.
  set (hex := String.prefix "0x" rest || String.prefix "0X" rest).
  set (R := if hex then 16%Z else 10%Z).
  set (str := if hex then _ else rest).
  pose proof (digitsPrefix_nonneg R str) as Hd.
  destruct (digitsPrefix R str) as [|d digits]; [now left |].
  right. eexists. split; [reflexivity |].
  assert (0 <= mathInt R (d :: digits))%Z.
  { apply mathInt_nonneg; [destruct hex; unfold R; lia | assumption]. }
  lia.
Qed.

(** X7. A text whose first character after white space is a minus sign is
    always refused as not positive, whatever follows the sign. *)
Theorem parseLength_minus (ws rest : string) (w : World) :
  forallb isWhiteSpace (JsString.chars ws) = true ->
  parseLength (ws ++ String "-" rest) w
  = (Exit 1%Z, record (LogError LengthNotPositive) w).
Proof.
  intros Hws. rewrite parseLength_cases.
  destruct (parseInt_minus ws rest Hws) as [-> | (z & -> & Hz)];
    [reflexivity |].
  replace (z <? 1)%Z with true by (symmetry; apply Z.ltb_lt; lia).
  reflexivity.
Qed.

Lemma parseLength_minus_witness :
  parseLength (" " ++ String "-" "0x1F") Sample.working
  = (Exit 1%Z, record (LogError LengthNotPositive) Sample.working).
Proof.
  apply (parseLength_minus " " "0x1F" Sample.working). reflexivity.
Defined.

(** ** What a run of the handler prints and copies *)

Lemma setRng_same (w : World) : setRng (rng w) w = w.
Proof.
  destruct w. reflexivity.
Qed.

Lemma trace_record2 (e1 e2 : event) (w : World) :
  trace (record e2 (record e1 w)) = (trace w ++ [e1; e2])%list.
Proof.
  cbn. now rewrite <- app_assoc.
Qed.

Lemma trace_record3 (e1 e2 e3 : event) (w : World) :
  trace (record e3 (record e2 (record e1 w)))
  = (trace w ++ [e1; e2; e3])%list.
Proof.
  cbn. now rewrite <- !app_assoc.
Qed.

(** The four shapes of what one run adds to the trace. *)
Lemma handlePasswordGeneration_events
  (options : CommandOptions) (passwordOptions : PartialPasswordOptions)
  (w : World) :
  exists events,
    trace (snd (handlePasswordGeneration options passwordOptions w))
    = (trace w ++ events)%list
    /\ ((exists l, events = [LogError l]
                   /\ fst (handlePasswordGeneration options passwordOptions w)
                      = Exit 1%Z)
        \/ (exists password,
               cmd_copy options = false
               /\ events = [Log (GeneratedPassword password)])
        \/ (exists password,
               cmd_copy options = true
               /\ events = [Clipboard password;
                            Log (GeneratedPassword password);
                            Log CopiedToClipboard])
        \/ (exists password message,
               cmd_copy options = true
               /\ events = [LogError (FailedToCopy (Error message));
                            Log (GeneratedPassword password)])).
Proof.
  rewrite handlePasswordGeneration_run, parseLength_cases.
  assert (bad : forall l w0,
             trace w0 = trace w ->
             exists events,
               trace (snd (@Exit unit 1%Z, record (LogError l) w0))
               = (trace w ++ events)%list
               /\ ((exists l0, events = [LogError l0]
                               /\ fst (@Exit unit 1%Z, record (LogError l) w0)
                                  = Exit 1%Z)
                   \/ (exists password,
                          cmd_copy options = false
                          /\ events = [Log (GeneratedPassword password)])
                   \/ (exists password,
                          cmd_copy options = true
                          /\ events = [Clipboard password;
                                       Log (GeneratedPassword password);
                                       Log CopiedToClipboard])
                   \/ (exists password message,
                          cmd_copy options = true
                          /\ events = [LogError (FailedToCopy (Error message));
                                       Log (GeneratedPassword password)]))).
  { intros l w0 E. exists [LogError l]. cbn. rewrite E.
    split; [reflexivity |]. left. eauto. }
  destruct (parseInt (cmd_length options)) as [|z]; [now apply bad |].
  destruct (z <? 1)%Z; [now apply bad |].
  destruct (256 <? z)%Z; [now apply bad |].
  destruct (generatePassword
              (passwordOptionsOf (Num z) options passwordOptions) (rng w))
    as [[password | e | code] g] eqn:G.
  - destruct (cmd_copy options) eqn:Hcopy.
    + destruct (clipboardRejects (setRng g w) password) as [message|] eqn:C.
      * rewrite (copyToClipboard_rejected _ _ _ C). cbn [snd].
        rewrite trace_record2. eexists. split; [reflexivity |].
        right. right. right. eauto.
      * rewrite (copyToClipboard_accepted _ _ C). cbn [snd].
        rewrite trace_record3. eexists. split; [reflexivity |].
        right. right. left. eauto.
    + eexists. split; [reflexivity |]. right. left. eauto.
  - now apply bad.
  - now apply generatePassword_no_exit in G.
Qed.

(** X8. The clipboard receives nothing unless copying was asked for, and
    whatever it receives has also been printed: a run prints at most one
    password and copies nothing else. *)
Theorem clipboard_discipline
  (options : CommandOptions) (passwordOptions : PartialPasswordOptions)
  (w : World) :
  exists events,
    trace (snd (handlePasswordGeneration options passwordOptions w))
    = (trace w ++ events)%list
    /\ (cmd_copy options = false -> copied events = [])
    /\ (forall text, In text (copied events) -> In text (printed events))
    /\ List.length (printed events) <= 1.
Proof.
  destruct (handlePasswordGeneration_events options passwordOptions w)
    as (events & Htrace & Hshape).
  exists events. split; [exact Htrace |].
  destruct Hshape as [(l & -> & _) | [(pw & Hc & ->) | [(pw & Hc & ->)
                     | (pw & m & Hc & ->)]]]; cbn.
  - repeat split; auto.
  - repeat split; auto.
  - split; [congruence |]. split; [tauto | lia].
  - repeat split; auto; tauto.
Qed.

Lemma clipboard_discipline_witness :
  exists events,
    trace (snd (handlePasswordGeneration
                  (parseOptions [NoCopy]) noOverrides Sample.working))
    = (trace Sample.working ++ events)%list
    /\ copied events = [].
Proof.
  destruct (clipboard_discipline
              (parseOptions [NoCopy]) noOverrides Sample.working)
    as (events & Htrace & Hnone & _).
  exists events. split; [exact Htrace |]. apply Hnone. reflexivity.
Defined.

(** The outcomes of a run whose overrides do not set the length. *)
Lemma handlePasswordGeneration_outcomes
  (options : CommandOptions) (passwordOptions : PartialPasswordOptions)
  (w : World) :
  p_length passwordOptions = None ->
  let length := parseInt (cmd_length options) in
  let config := passwordOptionsOf length options passwordOptions in
  (isNaN length || lt length 1 = true
   /\ handlePasswordGeneration options passwordOptions w
      = (Exit 1%Z, record (LogError LengthNotPositive) w))
  \/ (gt length 256 = true
      /\ handlePasswordGeneration options passwordOptions w
         = (Exit 1%Z, record (LogError LengthTooLarge) w))
  \/ (composeCharset config = ""
      /\ handlePasswordGeneration options passwordOptions w
         = (Exit 1%Z,
            record (LogError (ErrorGenerating (Error noCharacterSets))) w))
  \/ (exists n password g,
         length = Num n /\ (1 <= n <= 256)%Z
         /\ composeCharset config <> ""
         /\ generatePassword config (rng w) = (Return password, g)
         /\ entropy g = entropy (rng w)
         /\ drawn g = drawn (rng w) + Z.to_nat n
         /\ String.length password = Z.to_nat n
         /\ (forall c, JsString.In c password ->
                       JsString.In c (composeCharset config))
         /\ handlePasswordGeneration options passwordOptions w
            = (if cmd_copy options then copyToClipboard password
               else console_log (GeneratedPassword password)) (setRng g w)).
Proof.
  intros Hkey length config. subst config length.
  rewrite handlePasswordGeneration_run, parseLength_cases.
  destruct (parseInt (cmd_length options)) as [|z]; [left; now split |].
  cbn [isNaN lt gt orb].
  destruct (z <? 1)%Z eqn:E1; [left; now split |].
  destruct (256 <? z)%Z eqn:E2; [right; left; now split |].
  apply Z.ltb_ge in E1, E2. right. right.
  destruct (string_dec
              (composeCharset (passwordOptionsOf (Num z) options passwordOptions))
              "") as [Hempty | Hne].
  - left. split; [assumption |].
    rewrite generatePassword_empty by assumption.
    now rewrite setRng_same.
  - right.
    destruct (generatePassword_returns
                (passwordOptionsOf (Num z) options passwordOptions) (rng w) z)
      as (password & Hgen & Hlen & _ & Hin); try assumption.
    + cbn. now rewrite Hkey.
    + unfold kMaxLength. lia.
    + rewrite Hgen. exists z, password. eexists.
      split; [reflexivity |]. split; [lia |]. split; [assumption |].
      split; [reflexivity |]. split; [reflexivity |].
      split; [reflexivity |]. split; [assumption |].
      split; [assumption | reflexivity].
Qed.



(** X10. A run with a length text that reads as an integer from 1 to 256
    and flags that leave some character returns normally, takes exactly
    that many bytes from the random source, prints the password exactly
    once, and puts it on the clipboard exactly when copying is asked for
    and the clipboard accepts it. *)
Theorem successful_run
  (options : CommandOptions) (passwordOptions : PartialPasswordOptions)
  (w : World) (n : Z) :
  p_length passwordOptions = None ->
  parseInt (cmd_length options) = Num n ->
  (1 <= n <= 256)%Z ->
  composeCharset (passwordOptionsOf (Num n) options passwordOptions) <> "" ->
  exists password events w',
    handlePasswordGeneration options passwordOptions w = (Return tt, w')
    /\ trace w' = (trace w ++ events)%list
    /\ printed events = [password]
    /\ copied events
       = (if cmd_copy options
          then match clipboardRejects w password with
               | None => [password]
               | Some _ => []
               end
          else [])
    /\ Z.of_nat (String.length password) = n
    /\ (forall c,
          JsString.In c password ->
          JsString.In c
            (composeCharset (passwordOptionsOf (Num n) options passwordOptions)))
    /\ entropy (rng w') = entropy (rng w)
    /\ drawn (rng w') = drawn (rng w) + Z.to_nat n.
Proof.
  intros Hkey Hparse Hn Hne.
  destruct (handlePasswordGeneration_outcomes options passwordOptions w Hkey)
    as [(Hc & _) | [(Hc & _) | [(Hc & _) | (m & pw & g & Hm & _ & _ & _ & He & Hd & Hl & Hin & E)]]];
    rewrite Hparse in *; cbn [isNaN lt gt orb] in *.
  - apply Z.ltb_lt in Hc. lia.
  - apply Z.ltb_lt in Hc. lia.
  - contradiction.
  - injection Hm as <-. exists pw. rewrite E.
    destruct (cmd_copy options).
    + change (clipboardRejects w pw)
        with (clipboardRejects (setRng g w) pw).
      destruct (clipboardRejects (setRng g w) pw) as [message|] eqn:C.
      * rewrite (copyToClipboard_rejected _ _ _ C).
        eexists. eexists. split; [reflexivity |].
        rewrite trace_record2.
        split; [reflexivity |]. split; [reflexivity |].
        split; [reflexivity |]. split; [lia |]. split; [exact Hin |].
        split; [exact He | exact Hd].
      * rewrite (copyToClipboard_accepted _ _ C).
        eexists. eexists. split; [reflexivity |].
        rewrite trace_record3.
        split; [reflexivity |]. split; [reflexivity |].
        split; [reflexivity |]. split; [lia |]. split; [exact Hin |].
        split; [exact He | exact Hd].
    + exists [Log (GeneratedPassword pw)]. eexists.
      split; [reflexivity |].
      split; [reflexivity |]. split; [reflexivity |].
      split; [reflexivity |]. split; [lia |]. split; [exact Hin |].
      split; [exact He | exact Hd].
Qed.

Lemma successful_run_witness :
  exists password events w',
    handlePasswordGeneration
      (parseOptions [Length " 8 characters"; NoSymbols]) noOverrides
      Sample.headless = (Return tt, w')
    /\ trace w' = (trace Sample.headless ++ events)%list
    /\ printed events = [password]
    /\ copied events
       = (if cmd_copy (parseOptions [Length " 8 characters"; NoSymbols])
          then match clipboardRejects Sample.headless password with
               | None => [password]
               | Some _ => []
               end
          else [])
    /\ Z.of_nat (String.length password) = 8%Z
    /\ (forall c,
          JsString.In c password ->
          JsString.In c
            (composeCharset
               (passwordOptionsOf (Num 8)
                  (parseOptions [Length " 8 characters"; NoSymbols])
                  noOverrides)))
    /\ entropy (rng w') = entropy (rng Sample.headless)
    /\ drawn (rng w') = drawn (rng Sample.headless) + Z.to_nat 8.
Proof.
  apply (successful_run
           (parseOptions [Length " 8 characters"; NoSymbols]) noOverrides
           Sample.headless 8).
  - reflexivity.
  - reflexivity.
  - lia.
  - vm_compute. discriminate.
Defined.

(** ** Commands and their switches *)

Ltac switch_cases IH o s :=
  destruct s; cbn [fold_left setSwitch];
  match goal with
  | |- context [fold_left setSwitch _ ?o'] =>
      destruct (IH o') as [[Hin ->] | [Hout ->]];
      [left; split; [now right | reflexivity] |];
      first [ right; split; [intros [H | H]; [discriminate H | tauto]
                            | reflexivity]
            | left; split; [now left | reflexivity] ]
  end.

Lemma parse_lowercase (argv : list Switch) :
  forall o,
    (In NoLowercase argv
     /\ cmd_lowercase (fold_left setSwitch argv o) = Some false)
    \/ (~ In NoLowercase argv
        /\ cmd_lowercase (fold_left setSwitch argv o) = cmd_lowercase o).
Proof.
  induction argv as [|s argv IH]; intros o; [right; split; auto |].
  switch_cases IH o s.
Qed.

Lemma parse_uppercase (argv : list Switch) :
  forall o,
    (In NoUppercase argv
     /\ cmd_uppercase (fold_left setSwitch argv o) = Some false)
    \/ (~ In NoUppercase argv
        /\ cmd_uppercase (fold_left setSwitch argv o) = cmd_uppercase o).
Proof.
  induction argv as [|s argv IH]; intros o; [right; split; auto |].
  switch_cases IH o s.
Qed.

Lemma parse_numbers (argv : list Switch) :
  forall o,
    (In NoNumbers argv
     /\ cmd_numbers (fold_left setSwitch argv o) = Some false)
    \/ (~ In NoNumbers argv
        /\ cmd_numbers (fold_left setSwitch argv o) = cmd_numbers o).
Proof.
  induction argv as [|s argv IH]; intros o; [right; split; auto |].
  switch_cases IH o s.
Qed.

Lemma parse_symbols (argv : list Switch) :
  forall o,
    (In NoSymbols argv
     /\ cmd_symbols (fold_left setSwitch argv o) = Some false)
    \/ (~ In NoSymbols argv
        /\ cmd_symbols (fold_left setSwitch argv o) = cmd_symbols o).
Proof.
  induction argv as [|s argv IH]; intros o; [right; split; auto |].
  switch_cases IH o s.
Qed.

(** The default command has no characters left exactly when all four
    [--no-] switches are among its arguments. *)
Lemma default_charset_empty_iff (argv : list Switch) (length : number) :
  composeCharset (passwordOptionsOf length (parseOptions argv) noOverrides)
  = ""
  <-> In NoLowercase argv /\ In NoUppercase argv
      /\ In NoNumbers argv /\ In NoSymbols argv.
Proof.
  rewrite composeCharset_empty_iff.
  unfold includeLowercase, includeUppercase, includeNumbers, includeSymbols.
  cbn [passwordOptionsOf opt_includeLowercase opt_includeUppercase
       opt_includeNumbers opt_includeSymbols noOverrides spread option_map
       p_includeLowercase p_includeUppercase p_includeNumbers
       p_includeSymbols orDefault].
  unfold parseOptions.
  destruct (parse_lowercase argv defaultOptions) as [[L ->] | [L ->]];
    destruct (parse_uppercase argv defaultOptions) as [[U ->] | [U ->]];
    destruct (parse_numbers argv defaultOptions) as [[N ->] | [N ->]];
    destruct (parse_symbols argv defaultOptions) as [[S ->] | [S ->]];
    cbn; split; intros (H1 & H2 & H3 & H4);
    try discriminate; try contradiction; auto.
Qed.

(** X11. With an acceptable length, the default command ends with the
    message that no character sets are selected exactly when
    [--no-lowercase], [--no-uppercase], [--no-numbers] and [--no-symbols]
    are all given, in any order and among any other switches; otherwise it
    generates a password. *)
Theorem default_command_fails_iff
  (argv : list Switch) (w : World) (n : Z) :
  parseInt (cmd_length (parseOptions argv)) = Num n ->
  (1 <= n <= 256)%Z ->
  (program (Default argv) w
   = (Exit 1%Z,
      record (LogError (ErrorGenerating (Error noCharacterSets))) w)
   <-> In NoLowercase argv /\ In NoUppercase argv
       /\ In NoNumbers argv /\ In NoSymbols argv)
  /\ (fst (program (Default argv) w) = Return tt
      <-> ~ (In NoLowercase argv /\ In NoUppercase argv
             /\ In NoNumbers argv /\ In NoSymbols argv)).
Proof.
  intros Hparse Hn.
  rewrite <- (default_charset_empty_iff argv (Num n)).
  cbn [program].
  destruct (handlePasswordGeneration_outcomes
              (parseOptions argv) noOverrides w eq_refl)
    as [(Hc & _) | [(Hc & _) | [(Hc & E) | (m & pw & g & Hm & _ & Hne & _ & _ & _ & _ & _ & E)]]];
    rewrite Hparse in *; cbn [isNaN lt gt orb] in *.
  - apply Z.ltb_lt in Hc. lia.
  - apply Z.ltb_lt in Hc. lia.
  - rewrite E. cbn [fst]. split; [tauto |].
    split; [discriminate | contradiction].
  - destruct (output_returns (cmd_copy (parseOptions argv)) pw (setRng g w))
      as (w1 & E1 & _).
    rewrite E, E1. cbn [fst]. split; [| tauto].
    split; [discriminate | contradiction].
Qed.

Lemma default_command_fails_iff_witness :
  program (Default [NoSymbols; NoCopy; NoNumbers; Length "8"; NoUppercase;
                    NoLowercase; NoSymbols]) Sample.working
  = (Exit 1%Z,
     record (LogError (ErrorGenerating (Error noCharacterSets)))
            Sample.working).
Proof.
  apply (default_command_fails_iff
           [NoSymbols; NoCopy; NoNumbers; Length "8"; NoUppercase;
            NoLowercase; NoSymbols] Sample.working 8).
  - reflexivity.
  - lia.
  - cbn. intuition.
Defined.





(** [pin -l 4] on the sample surroundings: six digits all the same. *)
Example pin_keeps_its_length :
  program (Pin [PresetLength "4"]) Sample.headless
  = (Return tt,
     record (Log (GeneratedPassword "074185"))
            (record (LogError (FailedToCopy (Error "no clipboard available")))
                    (setRng {| entropy := Sample.bytes; drawn := 6 |}
                            Sample.headless))).
Proof. reflexivity. Qed.

(** ** The older script *)

Lemma rng_advance_zero (g : RNG) :
  {| entropy := entropy g; drawn := drawn g + 0 |} = g.
Proof.
  destruct g. cbn. now rewrite Nat.add_0_r.
Qed.

(** X14. For every integer length from 0 to 65536 the two versions of
    [generatePassword] agree: drawing with [getRandomValues] on a
    [Uint8Array] and drawing with [randomBytes] give the same completion
    and leave the random source in the same state. *)
Theorem legacy_generatePassword_agrees
  (p : LegacyRun.Platform) (o : PasswordOptions) (g : RNG) (n : Z) :
  (65536 <= LegacyRun.maxTypedArrayLength p)%Z ->
  length o = Num n ->
  (0 <= n <= 65536)%Z ->
  LegacyRun.generatePassword p o g = generatePassword o g.
Proof.
  intros Hmax Hlen Hn.
  unfold LegacyRun.generatePassword, generatePassword.
  destruct (String.length (composeCharset o) =? 0)%nat; [reflexivity |].
  rewrite Hlen, randomBytes_accepts by (unfold kMaxLength; lia).
  unfold LegacyRun.newUint8Array, LegacyRun.getRandomValues.
  replace (n <? 0)%Z with false by (symmetry; apply Z.ltb_ge; lia).
  replace (LegacyRun.maxTypedArrayLength p <? n)%Z with false
    by (symmetry; apply Z.ltb_ge; lia).
  cbn [orb].
  replace (65536 <? Z.of_nat (Z.to_nat n))%Z with false
    by (symmetry; apply Z.ltb_ge; lia).
  reflexivity.
Qed.

Lemma legacy_generatePassword_agrees_witness :
  LegacyRun.generatePassword Sample2.node Sample2.digits Sample.source
  = generatePassword Sample2.digits Sample.source.
Proof.
  apply (legacy_generatePassword_agrees
           Sample2.node Sample2.digits Sample.source 4).
  - cbn. lia.
  - reflexivity.
  - lia.
Defined.

Lemma legacy_copyToClipboard_accepted (text : string) (w : World) :
  clipboardRejects w text = None ->
  Legacy.copyToClipboard text w
  = (Return tt,
     record (Log CopiedToClipboard) (record (Clipboard text) w)).
Proof.
  intros H.
  unfold Legacy.copyToClipboard, tryCatch, bind, clipboardy_write.
  now rewrite H.
Qed.

Lemma legacy_copyToClipboard_returns (text : string) (w : World) :
  exists w', Legacy.copyToClipboard text w = (Return tt, w').
Proof.
  destruct (clipboardRejects w text) as [message|] eqn:H.
  - rewrite (legacy_copyToClipboard_rejected _ _ _ H). eauto.
  - rewrite (legacy_copyToClipboard_accepted _ _ H). eauto.
Qed.

(** The default action of the older script, step by step: its inline
    checks are those of [parseLength], and within them its
    [generatePassword] is the newer one. *)
Lemma legacy_defaultAction_run
  (p : LegacyRun.Platform) (options : CommandOptions) (w : World) :
  (65536 <= LegacyRun.maxTypedArrayLength p)%Z ->
  LegacyRun.defaultAction p options w
  = match parseLength (cmd_length options) w with
    | (Return length, w1) =>
        match generatePassword (Legacy.passwordOptionsOf length options)
                               (rng w1)
        with
        | (Return password, g) =>
            (if cmd_copy options then Legacy.copyToClipboard password
             else console_log (GeneratedPassword password)) (setRng g w1)
        | (Throw e, g) =>
            (Exit 1%Z, record (LogError (ErrorGenerating e)) (setRng g w1))
        | (Exit code, g) => (Exit code, setRng g w1)
        end
    | (Throw e, w1) => (Exit 1%Z, record (LogError (ErrorGenerating e)) w1)
    | (Exit code, w1) => (Exit code, w1)
    end.
Proof.
  intros Hmax. rewrite parseLength_cases.
  unfold LegacyRun.defaultAction, tryCatch at 1.
  destruct (parseInt (cmd_length options)) as [|z]; [reflexivity |].
  cbn [isNaN lt gt orb].
  destruct (z <? 1)%Z eqn:E1; [reflexivity |].
  destruct (256 <? z)%Z eqn:E2; [reflexivity |].
  apply Z.ltb_ge in E1, E2.
  unfold bind at 1. cbn [ret]. unfold bind at 1. cbn [ret].
  unfold bind, withRng.
  rewrite (legacy_generatePassword_agrees
             p (Legacy.passwordOptionsOf (Num z) options) (rng w) z
             Hmax eq_refl) by lia.
  destruct (generatePassword (Legacy.passwordOptionsOf (Num z) options)
              (rng w)) as [[password | e | code] g]; try reflexivity.
  destruct (cmd_copy options); [| reflexivity].
  destruct (legacy_copyToClipboard_returns password (setRng g w))
    as (w' & ->). reflexivity.
Qed.

(** X15. When it is not asked to copy, the default command of the older
    script does exactly what the handler of the newer one does with the
    same options: the same length checks with the same messages, the same
    password from the same bytes, the same output. *)
Theorem legacy_default_matches
  (p : LegacyRun.Platform) (options : CommandOptions) (w : World) :
  (65536 <= LegacyRun.maxTypedArrayLength p)%Z ->
  cmd_copy options = false ->
  LegacyRun.defaultAction p options w
  = handlePasswordGeneration options noOverrides w.
Proof.
  intros Hmax Hcopy.
  rewrite legacy_defaultAction_run by assumption.
  rewrite handlePasswordGeneration_run, Hcopy.
  destruct (parseLength (cmd_length options) w) as [[len | e | code] w1];
    reflexivity.
Qed.

Lemma legacy_default_matches_witness :
  LegacyRun.defaultAction Sample2.node
    (Legacy.parseOptions [Legacy.NoCopy; Legacy.Symbols]) Sample.working
  = handlePasswordGeneration
      (Legacy.parseOptions [Legacy.NoCopy; Legacy.Symbols]) noOverrides
      Sample.working.
Proof.
  apply (legacy_default_matches Sample2.node
           (Legacy.parseOptions [Legacy.NoCopy; Legacy.Symbols])
           Sample.working).
  - cbn. lia.
  - reflexivity.
Defined.

(** X16. With a clipboard that accepts, the older default command puts the
    password on the clipboard and does not print it: of a successful
    copying run the trace has the copy and the confirmation only. *)
Theorem legacy_copy_is_silent
  (p : LegacyRun.Platform) (options : CommandOptions) (w : World) (n : Z) :
  (65536 <= LegacyRun.maxTypedArrayLength p)%Z ->
  cmd_copy options = true ->
  parseInt (cmd_length options) = Num n ->
  (1 <= n <= 256)%Z ->
  composeCharset (Legacy.passwordOptionsOf (Num n) options) <> "" ->
  (forall text, clipboardRejects w text = None) ->
  exists password w',
    LegacyRun.defaultAction p options w = (Return tt, w')
    /\ trace w'
       = (trace w ++ [Clipboard password; Log CopiedToClipboard])%list
    /\ printed [Clipboard password; Log CopiedToClipboard] = []
    /\ Z.of_nat (String.length password) = n.
Proof.
  intros Hmax Hcopy Hparse Hn Hne Hclip.
  rewrite legacy_defaultAction_run, parseLength_cases, Hparse by assumption.
  replace (n <? 1)%Z with false by (symmetry; apply Z.ltb_ge; lia).
  replace (256 <? n)%Z with false by (symmetry; apply Z.ltb_ge; lia).
  destruct (generatePassword_returns
              (Legacy.passwordOptionsOf (Num n) options) (rng w) n Hne eq_refl)
    as (password & Hgen & Hlen & _); [unfold kMaxLength; lia |].
  rewrite Hgen, Hcopy.
  rewrite legacy_copyToClipboard_accepted by apply Hclip.
  exists password. eexists. split; [reflexivity |].
  split; [| split; [reflexivity | lia]].
  cbn. now rewrite <- app_assoc.
Qed.

Lemma legacy_copy_is_silent_witness :
  exists password w',
    LegacyRun.defaultAction Sample2.node (Legacy.parseOptions [])
                            Sample.working = (Return tt, w')
    /\ trace w'
       = (trace Sample.working
          ++ [Clipboard password; Log CopiedToClipboard])%list
    /\ printed [Clipboard password; Log CopiedToClipboard] = []
    /\ Z.of_nat (String.length password) = 16%Z.
Proof.
  apply (legacy_copy_is_silent Sample2.node (Legacy.parseOptions [])
           Sample.working 16).
  - cbn. lia.
  - reflexivity.
  - reflexivity.
  - lia.
  - vm_compute. discriminate.
  - reflexivity.
Defined.





